(** * AstrA: a naive-Bayes text classifier (Go package [classifier])

    A shallow embedding of the package and the properties of its
    tokenizer, stop-word oracle, frequency model and probability
    estimator.

    Conventions of the embedding.
    - A Go [string] is a Rocq [string]: a sequence of bytes.  Source text
      is UTF-8, so a Cyrillic letter takes two bytes.  Go compares strings
      byte by byte, which is [String.compare].
    - A Go [int] is a [Z] in the range of 64-bit two's complement, its
      width on 64-bit platforms; [++] wraps around ([incr]).
    - A [float64] is an exact rational [Q] in the functions of the
      estimator: every number they compute is a rational expression of
      integer counts and of the constant 0.001.  The program computes in
      IEEE 754 binary64, where a quotient is rounded, a product depends on
      the order of its factors in the last digit and a long product of
      small factors underflows to 0.  The statements over [Q] are those
      that rounding leaves true: comparisons of scores, products with 0
      and with 1, sums of counts (binary64 adds integers below 2^53
      exactly) and expressions that apply the operations of the source in
      the order of the source.  Where rounding decides, the module
      [binary64] evaluates the functions on the binary64 numbers
      themselves.  The statements about quotients assume a positive number
      of categories and non-negative counts, so that no divisor is zero.
    - The functions of the Go standard library that the package calls
      ([strings.ToLower], [sort.SearchStrings], [bufio.Scanner] with
      [bufio.ScanWords]) are modelled in modules named after their
      packages.
    - A [chan string] that a goroutine fills and closes is the finite list
      of the values sent, in order.  The stages of the tokenizer pipeline
      are deterministic, so this list is all a consumer can observe.  The
      capacity of a channel does not change that list, but
      [make(chan string, n)] panics for a negative [n]: [Tokenize t] is
      the stream of a standard tokenizer whose channel can be made.  The
      statements use the capacity 100 that [NewTokenizer] sets and that
      the options [Filters] and [Transforms] keep.
    - A value of the interface [Tokenizer] is the function from a document
      to the stream that its method delivers.
    - The mutex of the classifier is not modelled: every public operation
      runs under the lock from start to end, so operations are atomic
      steps on the state.
    - Ranging over a Go map visits the keys in an unspecified order.
      [ClassifyWith] takes the order as an argument and the theorems
      about it hold for every order. *)

From Stdlib Require Import ZArith QArith Lqa.
From Stdlib Require PrimFloat Uint63.
From Equations Require Import Equations.
From stdpp Require Import gmap strings list.

#[local] Set Warnings "-inexact-float".

(** ** Go strings as byte sequences *)

Definition bytesOf (s : string) : list Z :=
  (λ a, Z.of_N (Ascii.N_of_ascii a)) <$> String.list_ascii_of_string s.

Definition stringOf (p : list Z) : string :=
  String.string_of_list_ascii ((λ b, Ascii.ascii_of_N (Z.to_N b)) <$> p).

(** ** Package unicode/utf8 *)

Module utf8.
Local Open Scope Z_scope.

Definition RuneError : Z := 0xFFFD.
Definition RuneSelf : Z := 0x80.
Definition MaxRune : Z := 0x10FFFF.
Definition surrogateMin : Z := 0xD800.
Definition surrogateMax : Z := 0xDFFF.

Definition maskx : Z := 0x3F.
Definition mask2 : Z := 0x1F.
Definition mask3 : Z := 0x0F.
Definition mask4 : Z := 0x07.
Definition tx : Z := 0x80.
Definition t2 : Z := 0xC0.
Definition t3 : Z := 0xE0.
Definition t4 : Z := 0xF0.
Definition locb : Z := 0x80.
Definition hicb : Z := 0xBF.

(** The table [first] with [acceptRanges]: for a lead byte, the length
    of the sequence and the range accepted for the second byte.  [None]
    for the bytes that start no multi-byte sequence. *)
Definition first (p0 : Z) : option (nat * Z * Z) :=
  if p0 <? 0xC2 then None
  else if p0 <=? 0xDF then Some (2%nat, locb, hicb)
  else if p0 =? 0xE0 then Some (3%nat, 0xA0, hicb)
  else if p0 <=? 0xEC then Some (3%nat, locb, hicb)
  else if p0 =? 0xED then Some (3%nat, locb, 0x9F)
  else if p0 <=? 0xEF then Some (3%nat, locb, hicb)
  else if p0 =? 0xF0 then Some (4%nat, 0x90, hicb)
  else if p0 <=? 0xF3 then Some (4%nat, locb, hicb)
  else if p0 =? 0xF4 then Some (4%nat, locb, 0x8F)
  else None.

Definition cont (b : Z) : bool := (locb <=? b) && (b <=? hicb).

(** [DecodeRune p]: the first rune of [p] and its width in bytes; an
    invalid or truncated encoding is [RuneError] of width 1. *)
Definition DecodeRune (p : list Z) : Z * nat :=
  match p with
  | [] => (RuneError, 0%nat)
  | p0 :: _ =>
    if p0 <? RuneSelf then (p0, 1%nat)
    else
      match first p0 with
      | None => (RuneError, 1%nat)
      | Some (sz, lo, hi) =>
        if (length p <? sz)%nat then (RuneError, 1%nat)
        else
          match p with
          | _ :: b1 :: tl1 =>
            if (b1 <? lo) || (hi <? b1) then (RuneError, 1%nat)
            else if (sz <=? 2)%nat then
              (Z.lor (Z.shiftl (Z.land p0 mask2) 6) (Z.land b1 maskx), 2%nat)
            else
              match tl1 with
              | b2 :: tl2 =>
                if negb (cont b2) then (RuneError, 1%nat)
                else if (sz <=? 3)%nat then
                  (Z.lor (Z.lor (Z.shiftl (Z.land p0 mask3) 12)
                                (Z.shiftl (Z.land b1 maskx) 6))
                         (Z.land b2 maskx), 3%nat)
                else
                  match tl2 with
                  | b3 :: _ =>
                    if negb (cont b3) then (RuneError, 1%nat)
                    else
                      (Z.lor (Z.lor (Z.lor (Z.shiftl (Z.land p0 mask4) 18)
                                           (Z.shiftl (Z.land b1 maskx) 12))
                                    (Z.shiftl (Z.land b2 maskx) 6))
                             (Z.land b3 maskx), 4%nat)
                  | [] => (RuneError, 1%nat)
                  end
              | [] => (RuneError, 1%nat)
              end
          | _ => (RuneError, 1%nat)
          end
      end
  end.

(** [AppendRune nil r]: the UTF-8 encoding of [r]; a surrogate or a
    value out of range is encoded as [RuneError]. *)
Definition encode3 (r : Z) : list Z :=
  [Z.lor t3 (Z.shiftr r 12);
   Z.lor tx (Z.land (Z.shiftr r 6) maskx);
   Z.lor tx (Z.land r maskx)].

Definition EncodeRune (r : Z) : list Z :=
  if (0 <=? r) && (r <=? 0x7F) then [r]
  else if (0 <=? r) && (r <=? 0x7FF) then
    [Z.lor t2 (Z.shiftr r 6); Z.lor tx (Z.land r maskx)]
  else if (r <? 0) || (MaxRune <? r)
          || ((surrogateMin <=? r) && (r <=? surrogateMax)) then
    encode3 RuneError
  else if r <=? 0xFFFF then encode3 r
  else
    [Z.lor t4 (Z.shiftr r 18);
     Z.lor tx (Z.land (Z.shiftr r 12) maskx);
     Z.lor tx (Z.land (Z.shiftr r 6) maskx);
     Z.lor tx (Z.land r maskx)].

(** Case analysis along the branches of [DecodeRune]. *)
Ltac width_cases :=
  unfold DecodeRune;
  repeat match goal with
         | |- context [match ?p with [] => _ | _ :: _ => _ end] =>
           is_var p; destruct p; simpl length in *
         | |- context [match first ?b with Some _ => _ | None => _ end] =>
           destruct (first b) as [[[? ?] ?]|]
         | |- context [if ?b then _ else _] => destruct b eqn:?
         end;
  repeat match goal with
         | H : (_ <? _)%nat = false |- _ => apply Nat.ltb_ge in H
         end;
  simpl; try lia.

(** Ranging over a string ([for i, c := range s]) decodes it rune after
    rune.  [decode p] is the sequence of the runes together with the
    bytes each one was read from. *)
Equations? decode (p : list Z) : list (Z * list Z) by wf (length p) lt :=
decode [] := [];
decode (b :: tl) :=
  let rw := DecodeRune (b :: tl) in
  (rw.1, take rw.2 (b :: tl)) :: decode (drop rw.2 (b :: tl)).
Proof.
  assert (1 <= rw.2 <= length (b :: tl))%nat as Hw
    by (subst rw; generalize tl; intros p; width_cases).
  rewrite length_drop. lia.
Defined.
End utf8.

(** ** Package unicode *)

Module unicode.
Local Open Scope Z_scope.

(** [ToLower] on the blocks that occur in the stop-word table and in
    Russian or English documents: Basic Latin, Latin-1 Supplement and
    Cyrillic U+0400..U+045F.  Outside these blocks the model leaves a
    rune unchanged. *)
Definition ToLower (r : Z) : Z :=
  if (0x41 <=? r) && (r <=? 0x5A) then r + 32
  else if (0xC0 <=? r) && (r <=? 0xDE) && negb (r =? 0xD7) then r + 32
  else if (0x400 <=? r) && (r <=? 0x40F) then r + 80
  else if (0x410 <=? r) && (r <=? 0x42F) then r + 32
  else r.
End unicode.

(** ** Package strings *)

Module strings.
(** [Map mapping s] decodes [s] rune by rune, applies [mapping] and
    encodes the results; an invalid byte decodes to [RuneError] and is
    written back as the three bytes of U+FFFD.  A negative result drops
    the rune. *)
Definition Map (mapping : Z → Z) (s : string) : string :=
  stringOf
    (concat ((λ cb : Z * list Z,
                let r := mapping cb.1 in
                if (0 <=? r)%Z then utf8.EncodeRune r else [])
             <$> utf8.decode (bytesOf s))).

(** [ToLower] has a fast path for pure ASCII strings that computes the
    same bytes as the general path. *)
Definition ToLower (s : string) : string := Map unicode.ToLower s.
End strings.

(** ** Package sort *)

Module sort.
Local Open Scope Z_scope.

(** The loop of [Search]: [for i < j { h := int(uint(i+j) >> 1); ... }]. *)
Equations? searchLoop (f : Z → bool) (i j : Z) : Z
  by wf (Z.to_nat (j - i)) lt :=
searchLoop f i j with Z_lt_dec i j := {
  | left _ =>
    let h := Z.shiftr (i + j) 1 in
    if negb (f h) then searchLoop f (h + 1) j else searchLoop f i h
  | right _ => i }.
Proof.
  all: subst h; rewrite Z.shiftr_div_pow2 by lia; change (2 ^ 1) with 2.
  all: assert (i <= (i + j) / 2 < j)
    by (split; [apply Z.div_le_lower_bound | apply Z.div_lt_upper_bound];
        lia).
  all: lia.
Defined.

Definition Search (n : Z) (f : Z → bool) : Z := searchLoop f 0 n.

(** [a[i] >= x] on strings.  [Search] calls the predicate on indices of
    [0, len(a)) only (lemma [searchLoop_ext] below), so the value chosen
    for an index out of range is never used. *)
Definition geAt (a : list string) (x : string) (i : Z) : bool :=
  match a !! Z.to_nat i with
  | Some s => String.leb x s
  | None => true
  end.

Definition SearchStrings (a : list string) (x : string) : Z :=
  let n := Z.of_nat (length a) in Search n (geAt a x).

(** [StringsAreSorted x]: no element is less than its predecessor. *)
Fixpoint StringsAreSorted (x : list string) : bool :=
  match x with
  | a :: tl =>
    match tl with
    | b :: _ => negb (String.ltb b a) && StringsAreSorted tl
    | [] => true
    end
  | [] => true
  end.
End sort.

(** ** Package bufio: a Scanner with the split function ScanWords *)

Module bufio.
Local Open Scope Z_scope.

Definition MaxScanTokenSize : Z := 64 * 1024.

Definition isSpace (r : Z) : bool :=
  if r <=? 0xFF then
    (r =? 0x20) || ((0x09 <=? r) && (r <=? 0x0D))
    || (r =? 0x85) || (r =? 0xA0)
  else if (0x2000 <=? r) && (r <=? 0x200A) then true
  else (r =? 0x1680) || (r =? 0x2028) || (r =? 0x2029)
       || (r =? 0x202F) || (r =? 0x205F) || (r =? 0x3000).

(** The tokens that successive calls of [Scan] deliver on the decoded
    input [rs], where [cur] holds the bytes of the word being read
    (empty between words).  [ScanWords] skips leading spaces and returns
    the bytes up to the next space rune.  A token is found only when the
    word and the space that ends it fit in the buffer, which grows to
    [MaxScanTokenSize] bytes at most; at the end of the input the word
    must leave one byte free.  Otherwise [Scan] fails with [ErrTooLong]
    and delivers nothing more. *)
Fixpoint scan (rs : list (Z * list Z)) (cur : list Z) : list (list Z) :=
  match rs with
  | [] =>
    match cur with
    | [] => []
    | _ => if Z.of_nat (length cur) <? MaxScanTokenSize then [cur] else []
    end
  | (r, bs) :: rs' =>
    if isSpace r then
      match cur with
      | [] => scan rs' []
      | _ =>
        if Z.of_nat (length cur + length bs) <=? MaxScanTokenSize
        then cur :: scan rs' []
        else []
      end
    else scan rs' (cur ++ bs)
  end.

(** [words data]: the values of [Text()] over the loop
    [for scanner.Scan() { ... }] on [strings.NewReader(data)]. *)
Definition words (data : string) : list string :=
  stringOf <$> scan (utf8.decode (bytesOf data)) [].
End bufio.

(** ** Package classifier *)

(** *** classifier.go: the stop-word oracle *)

Definition stopwords : list string :=
  [
    "мне"; "здравств"; "c"; "а"; "алло"; "без"; "белый"; "близко"; "более"; "больше"; "большой"; "будем"; "будет"; "будете"; "будешь"; "будто"; "буду"; "будут"; "будь";
    "восьмой"; "вот"; "впрочем"; "времени"; "время"; "все"; "все еще"; "всегда"; "всего"; "всем"; "всеми"; "всему"; "всех"; "всею"; "всю"; "всюду";
    "бы"; "бывает"; "бывь"; "был"; "была"; "были"; "было"; "быть"; "в"; "важная"; "важное"; "важные"; "важный"; "вам"; "вами"; "вас"; "ваш"; "ваша"; "ваше";
    "ваши"; "вверх"; "вдали"; "вдруг"; "ведь"; "везде"; "вернуться"; "весь"; "вечер"; "взгляд"; "взять"; "вид"; "видел"; "видеть"; "вместе"; "вне"; "вниз";
    "внизу"; "во"; "вода"; "война"; "вокруг"; "вон"; "вообще"; "вопрос"; "восемнадцатый"; "восемнадцать"; "восемь"; "вся"; "всё"; "второй"; "вы"; "выйти";
    "г"; "где"; "главный"; "глаз"; "говорил"; "говорит"; "говорить"; "год"; "года"; "году"; "голова"; "голос"; "город"; "да"; "давать"; "давно"; "даже"; "далекий";
    "далеко"; "три"; "тринадцатый"; "тринадцать"; "ту"; "туда"; "тут"; "ты"; "тысяч"; "у"; "увидеть"; "уж"; "уже"; "улица"; "уметь"; "утро"; "хороший"; "хорошо";
    "хотел бы"; "хотеть"; "хоть"; "хотя"; "хочешь"; "час"; "часто"; "часть"; "чаще"; "чего"; "человек"; "чем"; "чему"; "через"; "четвертый"; "четыре";
    "четырнадцатый"; "четырнадцать"; "что"; "чтоб"; "чтобы"; "чуть"; "шестнадцатый"; "шестнадцать"; "шестой"; "шесть"; "эта"; "эти"; "этим"; "этими"; "этих";
    "это"; "этого"; "этой"; "этом"; "этому"; "этот"; "эту"; "я"; "являюсь"; "дальше"; "даром"; "дать"; "два"; "двадцатый"; "двадцать"; "две"; "двенадцатый";
    "двенадцать"; "дверь"; "двух"; "девятнадцатый"; "девятнадцать"; "девятый"; "девять"; "действительно"; "дел"; "делал"; "делать"; "делаю"; "дело"; "день";
    "деньги"; "десятый"; "десять"; "для"; "до"; "довольно"; "долго"; "должен"; "должно"; "должный"; "дом"; "дорога"; "друг"; "другая"; "другие"; "других"; "друго";
    "другое"; "другой"; "думать"; "душа"; "е"; "его"; "ее"; "ей"; "ему"; "если"; "есть"; "еще"; "ещё"; "ею"; "её"; "ж"; "ждать"; "же"; "жена"; "женщина"; "жизнь"; "жить";
    "за"; "занят"; "занята"; "занято"; "заняты"; "затем"; "зато"; "зачем"; "здесь"; "земля"; "знать"; "значит"; "значить"; "и"; "иди"; "идти"; "из"; "или"; "им"; "имеет";
    "имел"; "именно"; "иметь"; "ими"; "имя"; "иногда"; "их"; "к"; "каждая"; "каждое"; "каждые"; "каждый"; "кажется"; "казаться"; "как"; "какая"; "какой"; "кем"; "книга";
    "когда"; "кого"; "ком"; "комната"; "кому"; "конец"; "конечно"; "которая"; "которого"; "которой"; "которые"; "который"; "которых"; "кроме"; "кругом"; "кто"; "куда";
    "лежать"; "лет"; "ли"; "лицо"; "лишь"; "лучше"; "любить"; "советский"; "совсем"; "спасибо"; "спросить"; "сразу"; "стал"; "старый"; "стать"; "стол"; "сторона";
    "стоять"; "страна"; "суть"; "считать"; "т"; "та"; "так"; "такая"; "также"; "таки"; "такие"; "такое"; "такой"; "там"; "твои"; "твой"; "твоя"; "твоё"; "те"; "тебе";
    "тебя"; "тем"; "теми"; "теперь"; "тех"; "люди"; "м"; "маленький"; "мало"; "мать"; "машина"; "между"; "меля"; "менее"; "меньше"; "меня"; "место"; "миллионов";
    "мимо"; "минута"; "мир"; "мира"; "мне"; "много"; "многочисленная"; "многочисленное"; "многочисленные"; "многочисленный"; "мной"; "мною"; "мог"; "могу"; "могут";
    "мож"; "может"; "может быть"; "можно"; "можхо"; "мои"; "мой"; "мор"; "москва"; "мочь"; "моя"; "моё"; "мы"; "на"; "наверху"; "над"; "надо"; "назад"; "наиболее"; "найти";
    "наконец"; "нам"; "нами"; "народ"; "нас"; "начала"; "начать"; "наш"; "наша"; "наше"; "наши"; "не"; "него"; "недавно"; "недалеко"; "нее"; "ней"; "некоторый"; "нельзя";
    "нем"; "немного"; "нему"; "непрерывно"; "нередко"; "несколько"; "нет"; "нею"; "неё"; "ни"; "нибудь"; "ниже"; "низко"; "никакой"; "никогда"; "никто"; "никуда"; "ним";
    "ними"; "них"; "ничего"; "ничто"; "но"; "новый"; "нога"; "ночь"; "ну"; "нужно"; "нужный"; "нх"; "о"; "об"; "оба"; "обычно"; "один"; "одиннадцатый"; "одиннадцать";
    "однажды"; "однако"; "одного"; "одной"; "оказаться"; "окно"; "около"; "он"; "она"; "они"; "оно"; "опять"; "особенно"; "остаться"; "от"; "ответить"; "отец"; "откуда";
    "отовсюду"; "отсюда"; "очень"; "первый"; "перед"; "писать"; "плечо"; "по"; "под"; "подойди"; "подумать"; "пожалуйста"; "позже"; "пойти"; "пока"; "пол"; "то"; "тобой"; "тобою";
    "товарищ"; "тогда"; "того"; "тоже"; "только"; "том"; "тому"; "тот"; "тою"; "третий"; "слишком"; "слово"; "случай"; "смотреть"; "сначала"; "снова"; "со"; "собой"; "собою";
    "получить"; "помнить"; "понимать"; "понять"; "пор"; "пора"; "после"; "последний"; "посмотреть"; "посреди"; "потом"; "потому"; "почему"; "почти"; "правда"; "прекрасно";
    "при"; "про"; "просто"; "против"; "процентов"; "путь"; "пятнадцатый"; "пятнадцать"; "пятый"; "пять"; "работа"; "работать"; "раз"; "разве"; "рано"; "раньше"; "ребенок";
    "решить"; "россия"; "рука"; "русский"; "ряд"; "рядом"; "с"; "с кем"; "сам"; "сама"; "сами"; "самим"; "самими"; "самих"; "само"; "самого"; "самой"; "самом"; "самому"; "саму";
    "самый"; "свет"; "свое"; "своего"; "своей"; "свои"; "своих"; "свой"; "свою"; "сделать"; "сеаой"; "себе"; "себя"; "сегодня"; "седьмой"; "сейчас"; "семнадцатый"; "семнадцать";
    "семь"; "сидеть"; "сила"; "сих"; "сказал"; "сказала"; "сказать"; "сколько"
  ].

Definition numStopwords : Z := Z.of_nat (length stopwords).

(** [IsStopWordIn tbl v] is the body of [IsStopWord] over the table
    [tbl].  The result is [None] when the index expression [tbl[index]]
    is evaluated out of range (a run-time panic in Go). *)
Definition IsStopWordIn (tbl : list string) (v : string) : option bool :=
  let v := strings.ToLower v in
  let index := sort.SearchStrings tbl v in
  if (Z.of_nat (length tbl) <=? index)%Z then Some true
  else if (index <? 0)%Z then None
  else w ← tbl !! Z.to_nat index; Some (String.eqb w v).

Definition IsStopWord (v : string) : bool :=
  default false (IsStopWordIn stopwords v).

Definition IsNotStopWord (v : string) : bool := negb (IsStopWord v).

(** *** tokenizerutil.go: stream combinators *)

Definition defaultBufferSize : Z := 50.

Definition Predicate : Type := string → bool.
Definition Mapper : Type := string → string.

Definition Map (vs : list string) (f : list Mapper) : list string :=
  (λ v, fold_left (λ v fn, fn v) f v) <$> vs.

Fixpoint apply (filters : list Predicate) (text : string) : bool :=
  match filters with
  | [] => true
  | f :: filters' => if negb (f text) then false else apply filters' text
  end.

Definition Filter (vs : list string) (filters : list Predicate)
  : list string :=
  List.filter (apply filters) vs.

(** *** tokenizer.go *)

Record StdTokenizer : Type := mkStdTokenizer {
  transforms : list Mapper;
  filters : list Predicate;
  bufferSize : Z
}.

Definition StdOption : Type := StdTokenizer → StdTokenizer.

Definition BufferSize (size : Z) : StdOption :=
  λ t, mkStdTokenizer (transforms t) (filters t) size.

Definition Transforms (m : list Mapper) : StdOption :=
  λ t, mkStdTokenizer m (filters t) (bufferSize t).

Definition Filters (f : list Predicate) : StdOption :=
  λ t, mkStdTokenizer (transforms t) f (bufferSize t).

Definition NewTokenizer (opts : list StdOption) : StdTokenizer :=
  fold_left (λ t opt, opt t) opts
    (mkStdTokenizer [strings.ToLower] [IsNotStopWord] 100).

Definition pipeline (t : StdTokenizer) (inp : list string) : list string :=
  Map (Filter inp (filters t)) (transforms t).

(** The interface [Tokenizer] has the single method [Tokenize]. *)
Definition Tokenizer : Type := string → list string.

(** The words of the scanner, sent through the pipeline.  The channel
    between the scanner and the pipeline has the capacity [bufferSize t],
    which the stream does not depend on; for a negative capacity
    [make(chan string, t.bufferSize)] panics and there is no stream. *)
Definition Tokenize (t : StdTokenizer) : Tokenizer :=
  λ data, pipeline t (bufio.words data).

(** *** tokenizerutil.go: the classifier *)

Inductive error : Type :=
  | ErrClassNotFound
  | ErrNotClassified
  | ErrEmptyText.

Record Classifier : Type := mkClassifier {
  MapTokenToCategory : gmap string (gmap string Z);
  CategoriesCount : gmap string Z;
  tokenizer : Tokenizer
}.

Definition Option : Type := Classifier → Classifier * option error.

Definition TokenizerCustom (t : Tokenizer) : Option :=
  λ c, (mkClassifier (MapTokenToCategory c) (CategoriesCount c) t, None).

Definition New (opts : list Option) : Classifier :=
  fold_left (λ c opt, (opt c).1) opts
    (mkClassifier ∅ ∅ (Tokenize (NewTokenizer []))).

(** [x++] on an [int]. *)
Definition wrap64 (z : Z) : Z := ((z + 2 ^ 63) mod 2 ^ 64 - 2 ^ 63)%Z.
Definition incr (z : Z) : Z := wrap64 (z + 1).

(** [m[k]] on a [map[string]int]: zero for a missing key. *)
Definition at1 (m : gmap string Z) (k : string) : Z := default 0%Z (m !! k).

(** [m[k]++] on a [map[string]int]. *)
Definition incrAt (m : gmap string Z) (k : string) : gmap string Z :=
  <[k := incr (at1 m k)]> m.

(** [m[t][cat]]: a missing [t] gives the nil map, which reads as zero. *)
Definition at2 (m : gmap string (gmap string Z)) (t cat : string) : Z :=
  at1 (default ∅ (m !! t)) cat.

Definition addToken (t cat : string) (c : Classifier) : Classifier :=
  let m :=
    match MapTokenToCategory c !! t with
    | Some _ => MapTokenToCategory c
    | None => <[t := ∅]> (MapTokenToCategory c)
    end in
  mkClassifier (<[t := incrAt (default ∅ (m !! t)) cat]> m)
               (CategoriesCount c) (tokenizer c).

Definition addCategory (cat : string) (c : Classifier) : Classifier :=
  mkClassifier (MapTokenToCategory c) (incrAt (CategoriesCount c) cat)
               (tokenizer c).

Definition Train (trainData category : string) (c : Classifier)
  : Classifier * option error :=
  let c' := fold_left (λ c t, addToken t category c)
                      (tokenizer c trainData) c in
  (addCategory category c', None).

(** The keys of a map in the order of one traversal.  Go leaves the order
    unspecified: any permutation of [mapKeys m] can be observed. *)
Definition mapKeys (m : gmap string Z) : list string := (map_to_list m).*1.

Definition getModelCategories (c : Classifier) : list string :=
  mapKeys (CategoriesCount c).

Definition float64 (z : Z) : Q := inject_Z z.
Definition len (m : gmap string Z) : Z := Z.of_nat (size m).
Definition Qgtb (x y : Q) : bool := negb (Qle_bool x y).

Definition countTokenInCategory (c : Classifier) (token category : string)
  : Q :=
  match MapTokenToCategory c !! token with
  | Some _ => float64 (at2 (MapTokenToCategory c) token category)
  | None => 0
  end.

Definition calcTokenWeight (c : Classifier) (token : string) : Q :=
  let weight :=
    fold_left (λ weight cat,
                 weight + float64 (at2 (MapTokenToCategory c) token cat))%Q
              (getModelCategories c) 0%Q in
  if Qgtb weight 0 then weight else (1 # 1000)%Q.

Definition categoryTokensCount (c : Classifier) (cat : string) : Q :=
  match CategoriesCount c !! cat with
  | Some _ => float64 (at1 (CategoriesCount c) cat)
  | None => 0
  end.

Definition getTokenProb (c : Classifier) (token category : string) : Q :=
  if Qeq_bool (categoryTokensCount c category) 0 then 0
  else (countTokenInCategory c token category
        / categoryTokensCount c category)%Q.

Definition getWeightedProb (c : Classifier) (token cat : string) : Q :=
  let prob := getTokenProb c token cat in
  let sum :=
    fold_left (λ sum category, sum + countTokenInCategory c token category)%Q
              (getModelCategories c) 0%Q in
  ((calcTokenWeight c token * 1 / float64 (len (CategoriesCount c))
    + sum * prob) / (1 + sum))%Q.

Definition getTextProb (c : Classifier) (data cat : string) : Q :=
  fold_left (λ prob t, prob * getWeightedProb c t cat)%Q
            (tokenizer c data) 1%Q.

(** [1 / len(c.CategoriesCount)] is a division of [int]s: it truncates,
    and it panics ([None]) when the map is empty. *)
Definition getProb (c : Classifier) (data category : string) : option Q :=
  if (len (CategoriesCount c) =? 0)%Z then None
  else
    let categoryProb := float64 (1 ÷ len (CategoriesCount c)) in
    let docProb := getTextProb c data category in
    Some (docProb * categoryProb)%Q.

(** The loop of [Classify] over the categories in the order [cats]. *)
Fixpoint classifyLoop (c : Classifier) (data : string) (cats : list string)
    (maxCoincidenceIndex : Q) (guessedClass : string)
  : option (Q * string) :=
  match cats with
  | [] => Some (maxCoincidenceIndex, guessedClass)
  | cat :: cats' =>
    catCI ← getProb c data cat;
    if Qgtb catCI maxCoincidenceIndex
    then classifyLoop c data cats' catCI cat
    else classifyLoop c data cats' maxCoincidenceIndex guessedClass
  end.

(** [Classify] when the range over the categories yields [order].  The
    result is [(guessedClass, coincidenceIndex, err)], or [None] for a
    panic. *)
Definition ClassifyWith (order : list string) (c : Classifier) (data : string)
  : option (string * Q * option error) :=
  if String.eqb data "" then Some ("", 0%Q, Some ErrEmptyText)
  else
    '(maxCoincidenceIndex, guessedClass) ← classifyLoop c data order 0%Q "";
    if String.eqb guessedClass "" then Some ("", 0%Q, Some ErrNotClassified)
    else Some (guessedClass, maxCoincidenceIndex, None).

Definition Classify (c : Classifier) (data : string)
  : option (string * Q * option error) :=
  ClassifyWith (getModelCategories c) c data.

(** The loop of [GetProb]. *)
Fixpoint getProbLoop (c : Classifier) (str : string) (cats : list string)
    (probs : gmap string Q) (bestProb : Q) (respCat : string)
  : option (gmap string Q * string) :=
  match cats with
  | [] => Some (probs, respCat)
  | cat :: cats' =>
    prob ← getProb c str cat;
    let probs := if Qgtb prob 0 then <[cat := prob]> probs else probs in
    if Qgtb prob bestProb
    then getProbLoop c str cats' probs prob cat
    else getProbLoop c str cats' probs bestProb respCat
  end.

Definition GetProbWith (order : list string) (c : Classifier) (str : string)
  : option (gmap string Q * string) :=
  getProbLoop c str order ∅ 0%Q "".

(** *** classifier.go: WordCounts *)

Definition WordCounts (data : string) : gmap string Z * option error :=
  let instream := Tokenize (NewTokenizer []) data in
  (fold_left (λ wc token, incrAt wc token) instream ∅, None).

(** *** tokenizerutil.go: the estimator on binary64 numbers

    The functions that [getWeightedProb] is made of, with the arithmetic
    of the program: IEEE 754 binary64, every operation rounded to the
    nearest number, ties to even, and no two operations fused. *)

Module binary64.
Import PrimFloat.
Local Open Scope float_scope.

(** [float64(i)] on an [int]: the nearest binary64 number. *)
Definition float64 (z : Z) : float :=
  if (z =? - 2 ^ 63)%Z then (- 0x1p63)
  else if (z <? 0)%Z then - of_uint63 (Uint63.of_Z (- z))
  else of_uint63 (Uint63.of_Z z).

Definition countTokenInCategory (c : Classifier) (token category : string)
  : float :=
  match MapTokenToCategory c !! token with
  | Some _ => float64 (at2 (MapTokenToCategory c) token category)
  | None => 0
  end.

Definition calcTokenWeight (c : Classifier) (token : string) : float :=
  let weight :=
    fold_left (λ weight cat,
                 weight + float64 (at2 (MapTokenToCategory c) token cat))
              (getModelCategories c) 0 in
  if 0 <? weight then weight else 0.001.

Definition categoryTokensCount (c : Classifier) (cat : string) : float :=
  match CategoriesCount c !! cat with
  | Some _ => float64 (at1 (CategoriesCount c) cat)
  | None => 0
  end.

Definition getTokenProb (c : Classifier) (token category : string) : float :=
  if categoryTokensCount c category =? 0 then 0
  else countTokenInCategory c token category / categoryTokensCount c category.

Definition getWeightedProb (c : Classifier) (token cat : string) : float :=
  let prob := getTokenProb c token cat in
  let sum :=
    fold_left (λ sum category, sum + countTokenInCategory c token category)
              (getModelCategories c) 0 in
  (calcTokenWeight c token * 1 / float64 (len (CategoriesCount c))
   + sum * prob) / (1 + sum).


End binary64.

(** ** Notions used in the statements *)

(** Sum of a list of rationals. *)
Definition sumQ (l : list Q) : Q := fold_right Qplus 0%Q l.

(** The number of times [token] was seen, summed in the order in which
    [getModelCategories] lists the categories. *)
Definition totalSeen (c : Classifier) (token : string) : Q :=
  sumQ (countTokenInCategory c token <$> getModelCategories c).



(** All counts of a map are non-negative. *)
Definition nonnegCounts (m : gmap string Z) : Prop :=
  map_Forall (λ _ v, (0 <= v)%Z) m.

(** A sequence of [Train] calls, each given as [(document, category)]. *)
Definition trainAll (calls : list (string * string)) (c : Classifier)
  : Classifier :=
  fold_left (λ c call, (Train call.1 call.2 c).1) calls c.

(** The number of calls of [calls] that name the category [cat]. *)
Definition countCalls (cat : string) (calls : list (string * string)) : nat :=
  length (List.filter (λ call, String.eqb cat call.2) calls).

(** The number of occurrences of [token] in a token sequence. *)
Definition occurrences (token : string) (tokens : list string) : nat :=
  length (List.filter (String.eqb token) tokens).

(** A model whose stored counts are all non-negative. *)
Definition WellFormed (c : Classifier) : Prop :=
  nonnegCounts (CategoriesCount c) ∧
  ∀ t, nonnegCounts (default ∅ (MapTokenToCategory c !! t)).

(** All token records lie between 0 and [N]. *)
Definition countsWithin (N : Z) (m : gmap string (gmap string Z)) : Prop :=
  ∀ t inner cat v, m !! t = Some inner → inner !! cat = Some v →
                   (0 <= v <= N)%Z.

(** The tokens that a sequence of calls records. *)
Definition tokensOf (tk : Tokenizer) (calls : list (string * string))
  : list string :=
  calls ≫= λ call, tk call.1.

(** A classifier with empty maps and any tokenizer. *)
Definition fresh (c : Classifier) : Prop :=
  MapTokenToCategory c = ∅ ∧ CategoriesCount c = ∅.

(** Two models used as examples. *)
Definition trainedTwo : Classifier :=
  trainAll [("кот сидит на окне", "animals");
            ("акция выросла на бирже", "finance")] (New []).

Definition trainedUnnamed : Classifier := trainAll [("кот", "")] (New []).

Definition trainedOne : Classifier :=
  trainAll [("кот сидит на окне", "animals")] (New []).


(** ** Further notions *)

(** [countOverallTokens] (tokenizerutil.go): the sum of the training
    counts, accumulated in an [int], over the values in the order
    [vals] of one traversal of [CategoriesCount]. *)
Definition sumInts (vals : list Z) : Z :=
  fold_left (λ sum v, wrap64 (sum + v)) vals 0%Z.

Definition countOverallTokens (c : Classifier) : Z :=
  sumInts (map_to_list (CategoriesCount c)).*2.

(** Sum of a list of integers. *)
Definition sumZ (l : list Z) : Z := fold_right Z.add 0%Z l.

(** The ASCII white space that [ScanWords] skips. *)
Definition asciiSpace (b : Z) : bool :=
  ((9 <=? b) && (b <=? 13) || (b =? 32))%Z.

(** The calls of [calls] that name the category [cat]. *)
Definition callsFor (cat : string) (calls : list (string * string))
  : list (string * string) :=
  List.filter (λ call, String.eqb cat call.2) calls.

(** The effect of [addToken t cat] on the token records. *)
Definition recordToken (cat : string) (m : gmap string (gmap string Z))
    (t : string) : gmap string (gmap string Z) :=
  <[t := incrAt (default ∅ (m !! t)) cat]> m.

(** * Properties *)

(** ** Library functions *)

(** The midpoint [int(uint(i+j) >> 1)] lies in [i, j). *)
Lemma midpoint_bounds (i j : Z) :
  (i < j)%Z → (i <= Z.shiftr (i + j) 1 < j)%Z.
Proof.
  intros Hij. rewrite Z.shiftr_div_pow2 by lia. change (2 ^ 1)%Z with 2%Z.
  split; [apply Z.div_le_lower_bound | apply Z.div_lt_upper_bound]; lia.
Qed.

Lemma searchLoop_range (f : Z → bool) (i j : Z) :
  (i <= j)%Z → (i <= sort.searchLoop f i j <= j)%Z.
Proof.
  funelim (sort.searchLoop f i j); intros Hij.
  - pose proof (midpoint_bounds i j ltac:(done)) as Hh.
    cbv zeta. destruct (negb (f (Z.shiftr (i + j) 1))).
    + specialize (H ltac:(lia)). lia.
    + specialize (H0 ltac:(lia)). lia.
  - lia.
Qed.

Lemma searchLoop_eq (f : Z → bool) (i j : Z) :
  sort.searchLoop f i j =
  if Z_lt_dec i j then
    if negb (f (Z.shiftr (i + j) 1))
    then sort.searchLoop f (Z.shiftr (i + j) 1 + 1) j
    else sort.searchLoop f i (Z.shiftr (i + j) 1)
  else i.
Proof.
  rewrite sort.searchLoop_equation_1.
  destruct (Z_lt_dec i j); reflexivity.
Qed.

(** [Search] evaluates its predicate inside the interval only. *)
Lemma searchLoop_ext (f g : Z → bool) (i j : Z) :
  (∀ h, (i <= h < j)%Z → f h = g h) →
  sort.searchLoop f i j = sort.searchLoop g i j.
Proof.
  remember (Z.to_nat (j - i)) as n eqn:Hn. revert i j Hn.
  induction (lt_wf n) as [n _ IH]. intros i j -> Hfg.
  rewrite (searchLoop_eq f), (searchLoop_eq g).
  destruct (Z_lt_dec i j) as [Hlt|]; [|done].
  pose proof (midpoint_bounds i j Hlt) as Hh.
  rewrite <- (Hfg _ Hh).
  destruct (negb (f (Z.shiftr (i + j) 1))).
  - eapply IH; [|reflexivity|]; [lia|]. intros h' Hh'. apply Hfg. lia.
  - eapply IH; [|reflexivity|]; [lia|]. intros h' Hh'. apply Hfg. lia.
Qed.

Lemma SearchStrings_range (a : list string) (x : string) :
  (0 <= sort.SearchStrings a x <= Z.of_nat (length a))%Z.
Proof. apply searchLoop_range. lia. Qed.

(** The index expression of [IsStopWord] is never evaluated out of range:
    the lookup does not panic, whatever the table. *)
Lemma IsStopWordIn_in_bounds (tbl : list string) (v : string) :
  is_Some (IsStopWordIn tbl v).
Proof.
  unfold IsStopWordIn.
  pose proof (SearchStrings_range tbl (strings.ToLower v)) as Hr.
  destruct (Z.leb_spec (Z.of_nat (length tbl))
              (sort.SearchStrings tbl (strings.ToLower v))); [by eexists|].
  destruct (Z.ltb_spec (sort.SearchStrings tbl (strings.ToLower v)) 0);
    [lia|].
  destruct (lookup_lt_is_Some_2 tbl
              (Z.to_nat (sort.SearchStrings tbl (strings.ToLower v))))
    as [w Hw]; [lia|].
  rewrite Hw. by eexists.
Qed.

(** A search that ends at or past the end of the table answers [true]. *)
Lemma IsStopWordIn_past_end (tbl : list string) (v : string) :
  (Z.of_nat (length tbl) <= sort.SearchStrings tbl (strings.ToLower v))%Z →
  IsStopWordIn tbl v = Some true.
Proof.
  intros Hge. unfold IsStopWordIn.
  by destruct (Z.leb_spec (Z.of_nat (length tbl))
                 (sort.SearchStrings tbl (strings.ToLower v))); [|lia].
Qed.

(** Decoding yields at most one rune per byte, and loses no byte. *)
Lemma decode_length (p : list Z) : (length (utf8.decode p) <= length p)%nat.
Proof.
  funelim (utf8.decode p); [simpl; lia|].
  assert (1 <= (utf8.DecodeRune (b :: tl)).2 <= length (b :: tl))%nat as Hw
    by (generalize tl; intros p; utf8.width_cases).
  cbn zeta. rewrite length_drop in H.
  generalize dependent (utf8.DecodeRune (b :: tl)). intros rw; intros.
  simpl length in *. lia.
Qed.

Lemma decode_bytes (p : list Z) : concat (utf8.decode p).*2 = p.
Proof.
  funelim (utf8.decode p); [done|].
  cbn zeta. rewrite fmap_cons, concat_cons. cbn [snd].
  rewrite H. apply take_drop.
Qed.

Lemma scan_length (rs : list (Z * list Z)) (cur : list Z) :
  (length (bufio.scan rs cur) <= length rs + 1)%nat.
Proof.
  revert cur. induction rs as [|[r bs] rs IH]; intros cur; simpl.
  - destruct cur; [simpl; lia|]. case_match; simpl; lia.
  - destruct (bufio.isSpace r).
    + destruct cur.
      * specialize (IH []). lia.
      * case_match; simpl; [specialize (IH []); lia | lia].
    + specialize (IH (cur ++ bs)). lia.
Qed.

Lemma scan_length_nil (rs : list (Z * list Z)) :
  (length (bufio.scan rs []) <= length rs)%nat.
Proof.
  destruct rs as [|[r bs] rs]; simpl; [lia|].
  destruct (bufio.isSpace r).
  - pose proof (scan_length rs []). lia.
  - pose proof (scan_length rs bs). lia.
Qed.

(** ** The tokenizer *)

Lemma bytesOf_length (s : string) : length (bytesOf s) = String.length s.
Proof.
  unfold bytesOf. rewrite length_fmap.
  induction s as [|a s IH]; simpl; [done|]. by rewrite IH.
Qed.

Lemma words_length (data : string) :
  (length (bufio.words data) <= String.length data)%nat.
Proof.
  unfold bufio.words. rewrite length_fmap, <- bytesOf_length.
  etrans; [apply scan_length_nil | apply decode_length].
Qed.

Lemma Filter_length (vs : list string) (fs : list Predicate) :
  (length (Filter vs fs) <= length vs)%nat.
Proof. apply List.filter_length_le. Qed.

Lemma Map_length (vs : list string) (f : list Mapper) :
  length (Map vs f) = length vs.
Proof. apply length_fmap. Qed.

(** The stream of a standard tokenizer has at most one token per byte of
    the document. *)
Lemma Tokenize_length (t : StdTokenizer) (data : string) :
  (length (Tokenize t data) <= String.length data)%nat.
Proof.
  unfold Tokenize, pipeline. rewrite Map_length.
  etrans; [apply Filter_length | apply words_length].
Qed.

(** ** The stop-word oracle *)

(** C3 (defect of the code).  The stop-word table is not sorted: its first
    element "мне" is greater than its second element "здравств".  The
    binary search therefore misses words of the table, for one "мне". *)
Theorem C3_stopwords_not_sorted :
  sort.StringsAreSorted stopwords = false ∧
  stopwords !! 0%nat = Some "мне" ∧
  stopwords !! 1%nat = Some "здравств" ∧
  String.ltb "здравств" "мне" = true ∧
  "мне" ∈ stopwords ∧
  IsStopWord "мне" = false.
Proof.
  repeat split; try by vm_compute.
  apply (bool_decide_unpack _). by vm_compute.
Qed.

(** The search misses 178 of the 561 entries of the table. *)
Lemma stopwords_missed :
  length stopwords = 561%nat ∧
  length (List.filter IsNotStopWord stopwords) = 178%nat.
Proof. split; by vm_compute. Qed.

(** C4 (defect of the code).  A word whose search position is the end of
    the table is reported as a stop word: "яяя" is greater than every
    entry, its position is [numStopwords], it is not in the table, and
    [IsStopWord "яяя"] is [true]. *)
Theorem C4_past_end_is_reported_stopword :
  sort.SearchStrings stopwords (strings.ToLower "яяя") = numStopwords ∧
  ("яяя" ∉ stopwords) ∧
  IsStopWordIn stopwords "яяя" = Some true ∧
  IsStopWord "яяя" = true.
Proof.
  repeat split; try by vm_compute.
  apply (bool_decide_eq_false_1 _). by vm_compute.
Qed.

(** C5 (defect of the code).  With the default tokenizer the stop word "и"
    is kept: the token sequence of "the и cat" contains "и", and the
    token sequence of "И собака" is the single token "и". *)
Theorem C5_stopword_i_is_kept :
  "и" ∈ stopwords ∧
  Tokenize (NewTokenizer []) "the и cat" = ["the"; "и"; "cat"] ∧
  Tokenize (NewTokenizer []) "И собака" = ["и"].
Proof.
  repeat split; try by vm_compute.
  apply (bool_decide_unpack _). by vm_compute.
Qed.

(** ** Counters *)

Lemma wrap64_small (z : Z) : (- 2 ^ 63 <= z < 2 ^ 63)%Z → wrap64 z = z.
Proof. intros Hz. unfold wrap64. rewrite Z.mod_small; lia. Qed.

Lemma wrap64_add_l (x y : Z) : wrap64 (wrap64 x + y) = wrap64 (x + y).
Proof.
  unfold wrap64.
  replace ((x + 2 ^ 63) mod 2 ^ 64 - 2 ^ 63 + y + 2 ^ 63)%Z
    with ((x + 2 ^ 63) mod 2 ^ 64 + y)%Z by lia.
  rewrite Zplus_mod_idemp_l. f_equal. f_equal. lia.
Qed.

Lemma at1_incrAt (m : gmap string Z) (k k' : string) :
  at1 (incrAt m k) k' = if decide (k = k') then incr (at1 m k) else at1 m k'.
Proof.
  unfold at1 at 1. unfold incrAt. rewrite lookup_insert.
  by case_decide.
Qed.

Lemma occurrences_cons (k a : string) (l : list string) :
  occurrences k (a :: l)
  = ((if decide (a = k) then 1 else 0) + occurrences k l)%nat.
Proof.
  unfold occurrences. simpl.
  destruct (String.eqb_spec k a); case_decide; simpl; congruence.
Qed.

Lemma occurrences_le_length (k : string) (l : list string) :
  (occurrences k l <= length l)%nat.
Proof. apply List.filter_length_le. Qed.

(** The loop [for _, k := range keys { m[k]++ }]: the entry of [k] is
    created at its first occurrence and then counts the occurrences,
    modulo the width of [int]. *)
Lemma foldl_incrAt_lookup (keys : list string) (m : gmap string Z)
    (k : string) :
  fold_left incrAt keys m !! k =
  match occurrences k keys with
  | O => m !! k
  | S _ => Some (wrap64 (at1 m k + Z.of_nat (occurrences k keys)))
  end.
Proof.
  revert m. induction keys as [|a keys IH]; intros m; [done|].
  simpl fold_left. rewrite IH, occurrences_cons, at1_incrAt.
  unfold incrAt at 1. rewrite lookup_insert.
  case_decide as Hak; simpl.
  - subst a. destruct (occurrences k keys) as [|o]; unfold incr.
    + done.
    + rewrite wrap64_add_l. do 2 f_equal. lia.
  - done.
Qed.

Lemma foldl_incrAt_exact (keys : list string) (k : string) :
  (Z.of_nat (length keys) < 2 ^ 63)%Z →
  fold_left incrAt keys ∅ !! k =
  match occurrences k keys with
  | O => None
  | S _ => Some (Z.of_nat (occurrences k keys))
  end.
Proof.
  intros Hlen. rewrite foldl_incrAt_lookup.
  pose proof (occurrences_le_length k keys).
  destruct (occurrences k keys) eqn:E; [done|].
  unfold at1. rewrite lookup_empty. simpl default.
  rewrite wrap64_small; [done|lia].
Qed.

(** ** Training *)

Lemma CategoriesCount_addTokens (tokens : list string) (cat : string)
    (c : Classifier) :
  let c' := fold_left (λ c t, addToken t cat c) tokens c in
  CategoriesCount c' = CategoriesCount c ∧ tokenizer c' = tokenizer c.
Proof.
  revert c. induction tokens as [|t tokens IH]; intros c; [done|].
  simpl. destruct (IH (addToken t cat c)) as [-> ->]. done.
Qed.

Lemma CategoriesCount_Train (doc cat : string) (c : Classifier) :
  CategoriesCount (Train doc cat c).1 = incrAt (CategoriesCount c) cat.
Proof.
  unfold Train, addCategory. simpl.
  by destruct (CategoriesCount_addTokens (tokenizer c doc) cat c) as [-> _].
Qed.

Lemma tokenizer_Train (doc cat : string) (c : Classifier) :
  tokenizer (Train doc cat c).1 = tokenizer c.
Proof.
  unfold Train, addCategory. simpl.
  by destruct (CategoriesCount_addTokens (tokenizer c doc) cat c) as [_ ->].
Qed.

Lemma CategoriesCount_trainAll (calls : list (string * string))
    (c : Classifier) :
  CategoriesCount (trainAll calls c)
  = fold_left incrAt calls.*2 (CategoriesCount c).
Proof.
  revert c. induction calls as [|[doc cat] calls IH]; intros c; [done|].
  change (trainAll ((doc, cat) :: calls) c)
    with (trainAll calls (Train doc cat c).1).
  rewrite IH, CategoriesCount_Train. done.
Qed.

Lemma tokenizer_trainAll (calls : list (string * string)) (c : Classifier) :
  tokenizer (trainAll calls c) = tokenizer c.
Proof.
  revert c. induction calls as [|[doc k] calls IH]; intros c; [done|].
  change (trainAll ((doc, k) :: calls) c)
    with (trainAll calls (Train doc k c).1).
  by rewrite IH, tokenizer_Train.
Qed.

Lemma countCalls_occurrences (cat : string) (calls : list (string * string)) :
  countCalls cat calls = occurrences cat calls.*2.
Proof.
  unfold countCalls, occurrences.
  induction calls as [|[doc k] calls IH]; [done|]. simpl.
  destruct (String.eqb cat k); simpl; by rewrite IH.
Qed.

Lemma New_custom_fresh (ts : list Tokenizer) :
  fresh (New (TokenizerCustom <$> ts)).
Proof.
  unfold New.
  assert (∀ c, fresh c →
            fresh (fold_left (λ c opt, (opt c).1) (TokenizerCustom <$> ts) c))
    as H; [|by apply H].
  induction ts as [|t ts IH]; intros c Hc; [done|].
  simpl. apply IH. done.
Qed.

(** The stored training count after a sequence of calls, in general: the
    number of calls with this category modulo the width of [int]. *)
Lemma trainAll_count (calls : list (string * string)) (c : Classifier)
    (cat : string) :
  fresh c →
  at1 (CategoriesCount (trainAll calls c)) cat
  = wrap64 (Z.of_nat (countCalls cat calls)).
Proof.
  intros [_ Hc]. unfold at1 at 1.
  rewrite CategoriesCount_trainAll, foldl_incrAt_lookup, Hc.
  rewrite countCalls_occurrences.
  destruct (occurrences cat calls.*2); [done|].
  unfold at1. rewrite lookup_empty. done.
Qed.

(** *** Token records stay within the range of [int] *)

Lemma countsWithin_mono (N N' : Z) (m : gmap string (gmap string Z)) :
  (N <= N')%Z → countsWithin N m → countsWithin N' m.
Proof.
  intros HN Hm t inner cat v Ht Hv. specialize (Hm t inner cat v Ht Hv). lia.
Qed.

Lemma countsWithin_at1 (N : Z) (m : gmap string (gmap string Z))
    (t cat : string) :
  (0 <= N)%Z → countsWithin N m →
  (0 <= at1 (default ∅ (m !! t)) cat <= N)%Z.
Proof.
  intros HN Hm. unfold at1.
  destruct (m !! t) as [inner|] eqn:Ht; simpl.
  - destruct (inner !! cat) as [v|] eqn:Hv; simpl; [|lia].
    apply (Hm t inner cat v Ht Hv).
  - rewrite lookup_empty. simpl. lia.
Qed.

Lemma countsWithin_addToken (N : Z) (t cat : string) (c : Classifier) :
  (0 <= N)%Z → (N + 1 < 2 ^ 63)%Z →
  countsWithin N (MapTokenToCategory c) →
  countsWithin (N + 1) (MapTokenToCategory (addToken t cat c)).
Proof.
  intros HN Hlt Hm.
  pose proof (countsWithin_at1 N _ t cat HN Hm) as Hold.
  assert (∀ m' : gmap string (gmap string Z),
            countsWithin N m' →
            default ∅ (m' !! t) = default ∅ (MapTokenToCategory c !! t) →
            countsWithin (N + 1) (<[t := incrAt (default ∅ (m' !! t)) cat]> m'))
    as Hstep.
  { intros m' Hm' Heq t' inner cat' v Ht' Hv.
    rewrite lookup_insert in Ht'. case_decide as Htt.
    - injection Ht' as <-. unfold incrAt in Hv.
      rewrite lookup_insert in Hv. case_decide as Hcc.
      + injection Hv as <-. rewrite Heq. unfold incr.
        rewrite wrap64_small; lia.
      + destruct (m' !! t) as [inner'|] eqn:Hin; simpl in Hv.
        * specialize (Hm' t inner' cat' v Hin Hv). lia.
        * by rewrite lookup_empty in Hv.
    - specialize (Hm' t' inner cat' v Ht' Hv). lia. }
  unfold addToken. cbn [MapTokenToCategory].
  destruct (MapTokenToCategory c !! t) as [inner|] eqn:Ht.
  - apply Hstep; [done|]. by rewrite Ht.
  - apply Hstep.
    + intros t' inner' cat' v Ht' Hv.
      rewrite lookup_insert in Ht'. case_decide.
      * injection Ht' as <-. by rewrite lookup_empty in Hv.
      * apply (Hm t' inner' cat' v Ht' Hv).
    + by rewrite lookup_insert_eq.
Qed.

Lemma countsWithin_addTokens (tokens : list string) (N : Z) (cat : string)
    (c : Classifier) :
  (0 <= N)%Z → (N + Z.of_nat (length tokens) < 2 ^ 63)%Z →
  countsWithin N (MapTokenToCategory c) →
  countsWithin (N + Z.of_nat (length tokens))
    (MapTokenToCategory (fold_left (λ c t, addToken t cat c) tokens c)).
Proof.
  revert N c. induction tokens as [|t tokens IH]; intros N c HN Hlt Hm.
  - simpl. by rewrite Z.add_0_r.
  - simpl fold_left. simpl length in *.
    replace (N + Z.of_nat (S (length tokens)))%Z
      with (N + 1 + Z.of_nat (length tokens))%Z by lia.
    apply IH; [lia|lia|]. apply countsWithin_addToken; [done|lia|done].
Qed.

(** The tokens recorded by a sequence of calls. *)
Lemma countsWithin_trainAll (calls : list (string * string)) (N : Z)
    (c : Classifier) :
  (0 <= N)%Z →
  (N + Z.of_nat (length (tokensOf (tokenizer c) calls)) < 2 ^ 63)%Z →
  countsWithin N (MapTokenToCategory c) →
  countsWithin (N + Z.of_nat (length (tokensOf (tokenizer c) calls)))
    (MapTokenToCategory (trainAll calls c)).
Proof.
  revert N c. induction calls as [|[doc cat] calls IH]; intros N c HN Hlt Hm.
  - simpl. by rewrite Z.add_0_r.
  - change (trainAll ((doc, cat) :: calls) c)
      with (trainAll calls (Train doc cat c).1).
    unfold tokensOf in *. rewrite bind_cons, length_app in *.
    cbn [fst] in *.
    replace (N + Z.of_nat (length (tokenizer c doc)
                           + length (calls ≫= λ call, tokenizer c call.1)))%Z
      with (N + Z.of_nat (length (tokenizer c doc))
            + Z.of_nat (length (calls ≫= λ call, tokenizer c call.1)))%Z
      in * by lia.
    rewrite <- (tokenizer_Train doc cat c).
    apply IH; rewrite ?tokenizer_Train; [lia|lia|].
    unfold Train, addCategory. cbn [fst MapTokenToCategory].
    apply countsWithin_addTokens; [done|lia|done].
Qed.

(** The counts of a model trained from a fresh classifier are not
    negative, as long as fewer than 2^63 tokens were recorded. *)
Lemma trained_nonnegCounts (calls : list (string * string)) (c : Classifier)
    (t : string) :
  fresh c →
  (Z.of_nat (length (tokensOf (tokenizer c) calls)) < 2 ^ 63)%Z →
  nonnegCounts (default ∅ (MapTokenToCategory (trainAll calls c) !! t)).
Proof.
  intros [Hc _] Hlt.
  pose proof (countsWithin_trainAll calls 0 c ltac:(done) Hlt) as Hw.
  rewrite Hc in Hw. specialize (Hw ltac:(by intros ? ? ? ? ?)).
  intros cat v Hv.
  destruct (MapTokenToCategory (trainAll calls c) !! t) as [inner|] eqn:Ht;
    simpl in Hv.
  - by destruct (Hw t inner cat v Ht Hv).
  - by rewrite lookup_empty in Hv.
Qed.

(** A model trained from a fresh classifier is well formed, as long as
    the numbers of calls and of recorded tokens stay below 2^63. *)
Lemma trained_WellFormed (calls : list (string * string)) (c : Classifier) :
  fresh c →
  (Z.of_nat (length calls) < 2 ^ 63)%Z →
  (Z.of_nat (length (tokensOf (tokenizer c) calls)) < 2 ^ 63)%Z →
  WellFormed (trainAll calls c).
Proof.
  intros Hc Hcalls Htokens. split.
  - intros cat v Hv.
    pose proof (trainAll_count calls c cat Hc) as Hcount.
    unfold at1 in Hcount. rewrite Hv in Hcount. simpl in Hcount.
    assert (countCalls cat calls <= length calls)%nat
      by apply List.filter_length_le.
    rewrite wrap64_small in Hcount; lia.
  - intros t. by apply trained_nonnegCounts.
Qed.

(** C7.  From a fresh classifier, whatever tokenizers its options set,
    after a sequence of [Train] calls the stored training count of a
    category is the number of the calls that name it.  The count is an
    [int]: the number of calls is below 2^63, as in every run.  A further
    [Train] call with the empty document returns no error and raises the
    count by exactly 1.  It leaves the token records unchanged when the
    tokenizer has no token for the empty document, as is the case for the
    standard tokenizer of [New()]. *)
Theorem C7_training_count (ts : list Tokenizer)
    (calls : list (string * string)) (cat : string) :
  let c := trainAll calls (New (TokenizerCustom <$> ts)) in
  let n := Z.of_nat (countCalls cat calls) in
  (n < 2 ^ 63)%Z →
  at1 (CategoriesCount c) cat = n ∧
  categoryTokensCount c cat = float64 n ∧
  (Train "" cat c).2 = None ∧
  ((n + 1 < 2 ^ 63)%Z →
   at1 (CategoriesCount (Train "" cat c).1) cat = (n + 1)%Z) ∧
  (tokenizer c "" = [] →
   MapTokenToCategory (Train "" cat c).1 = MapTokenToCategory c) ∧
  (ts = [] → tokenizer c "" = []).
Proof.
  intros c n Hn.
  assert (at1 (CategoriesCount c) cat = n) as Hcount.
  { unfold c. rewrite trainAll_count by apply New_custom_fresh.
    apply wrap64_small. lia. }
  split; [done|]. split; [|split; [done|split; [|split]]].
  - unfold categoryTokensCount. rewrite <- Hcount. unfold at1.
    by destruct (CategoriesCount c !! cat).
  - intros Hn1. rewrite CategoriesCount_Train, at1_incrAt.
    case_decide; [|done]. rewrite Hcount. unfold incr.
    apply wrap64_small. lia.
  - intros Htok. unfold Train. by rewrite Htok.
  - intros ->. unfold c. by rewrite tokenizer_trainAll.
Qed.

(** The theorem at three calls, two of them for "animals", on the default
    classifier. *)
Lemma C7_training_count_witness :
  let calls := [("кот сидит на окне", "animals"); ("", "animals");
                ("акция выросла", "finance")] in
  let c := trainAll calls (New []) in
  (2 < 2 ^ 63)%Z ∧
  (2 + 1 < 2 ^ 63)%Z ∧
  tokenizer c "" = [] ∧
  at1 (CategoriesCount c) "animals" = 2%Z ∧
  categoryTokensCount c "animals" = float64 2 ∧
  (Train "" "animals" c).2 = None ∧
  at1 (CategoriesCount (Train "" "animals" c).1) "animals" = (2 + 1)%Z ∧
  MapTokenToCategory (Train "" "animals" c).1 = MapTokenToCategory c.
Proof.
  intros calls c.
  assert (2 < 2 ^ 63)%Z as H1 by reflexivity.
  assert (2 + 1 < 2 ^ 63)%Z as H2 by reflexivity.
  destruct (C7_training_count [] calls "animals" H1)
    as (Ha & Hb & Hc & Hd & He & Hf).
  pose proof (Hf eq_refl) as H3.
  split; [exact H1|]. split; [exact H2|]. split; [exact H3|].
  split; [exact Ha|]. split; [exact Hb|]. split; [exact Hc|].
  split; [exact (Hd H2)|exact (He H3)].
Defined.

(** ** Word counts *)

(** Counting the tokens of the stream of a standard tokenizer, whatever
    its filters and transforms. *)
Lemma tokens_counted (t : StdTokenizer) (data token : string) :
  (Z.of_nat (String.length data) < 2 ^ 63)%Z →
  fold_left incrAt (Tokenize t data) ∅ !! token =
  match occurrences token (Tokenize t data) with
  | O => None
  | S k => Some (Z.of_nat (S k))
  end.
Proof.
  intros Hlen. rewrite foldl_incrAt_exact.
  - by destruct (occurrences _ _).
  - pose proof (Tokenize_length t data). lia.
Qed.

(** C10.  For every input string (a Go string has fewer than 2^63 bytes),
    [WordCounts] returns no error and the map that sends every token of
    the default tokenizer's output to its number of occurrences there; a
    string that is not such a token has no entry. *)
Theorem C10_WordCounts (data : string) :
  (Z.of_nat (String.length data) < 2 ^ 63)%Z →
  (WordCounts data).2 = None ∧
  ∀ token,
    (WordCounts data).1 !! token =
    match occurrences token (Tokenize (NewTokenizer []) data) with
    | O => None
    | S k => Some (Z.of_nat (S k))
    end.
Proof.
  intros Hlen. split; [done|]. intros token.
  by apply (tokens_counted (NewTokenizer [])).
Qed.

(** The theorem at a document with a repeated word. *)
Lemma C10_WordCounts_witness :
  (Z.of_nat (String.length "кот и кот") < 2 ^ 63)%Z ∧
  (WordCounts "кот и кот").2 = None ∧
  ∀ token,
    (WordCounts "кот и кот").1 !! token =
    match occurrences token (Tokenize (NewTokenizer []) "кот и кот") with
    | O => None
    | S k => Some (Z.of_nat (S k))
    end.
Proof.
  split; [reflexivity|]. apply (C10_WordCounts "кот и кот"). reflexivity.
Defined.

(** ** The estimator *)

Lemma Qgtb_spec (x y : Q) : Qgtb x y = true ↔ (y < x)%Q.
Proof.
  unfold Qgtb. rewrite negb_true_iff.
  destruct (Qle_bool x y) eqn:E.
  - apply Qle_bool_iff in E. split; [done|]. intros H. lra.
  - split; [|done]. intros _. apply Qnot_le_lt. intros H.
    apply Qle_bool_iff in H. congruence.
Qed.

Lemma Qgtb_false (x y : Q) : Qgtb x y = false ↔ (x <= y)%Q.
Proof.
  destruct (Qgtb x y) eqn:E.
  - apply Qgtb_spec in E. split; [done|]. intros H. lra.
  - split; [|done]. intros _. apply Qnot_lt_le. intros H.
    apply Qgtb_spec in H. congruence.
Qed.

Lemma foldl_Qplus {A : Type} (f : A → Q) (l : list A) (a : Q) :
  (fold_left (λ s x, s + f x) l a == a + sumQ (f <$> l))%Q.
Proof.
  revert a. induction l as [|x l IH]; intros a.
  - simpl. ring.
  - rewrite fmap_cons. simpl. rewrite IH. ring.
Qed.

(** The order in which the categories are visited does not change a sum. *)
Lemma sumQ_Permutation (l l' : list Q) : l ≡ₚ l' → (sumQ l == sumQ l')%Q.
Proof.
  induction 1 as [|x l l' _ IH|x y l|l l' l'' _ IH1 _ IH2]; simpl.
  - reflexivity.
  - by rewrite IH.
  - ring.
  - by rewrite IH1.
Qed.

Lemma sumQ_nonneg (l : list Q) : Forall (λ q, 0 <= q)%Q l → (0 <= sumQ l)%Q.
Proof. induction 1; simpl; lra. Qed.

Lemma at2_nonneg (m : gmap string (gmap string Z)) (t cat : string) :
  nonnegCounts (default ∅ (m !! t)) → (0 <= at2 m t cat)%Z.
Proof.
  intros Hm. unfold at2, at1.
  destruct (default ∅ (m !! t) !! cat) as [v|] eqn:E; [|done].
  by apply (Hm cat v).
Qed.

Lemma float64_nonneg (z : Z) : (0 <= z)%Z → (0 <= float64 z)%Q.
Proof. intros Hz. unfold float64, Qle. simpl. lia. Qed.

Lemma float64_pos (z : Z) : (1 <= z)%Z → (0 < float64 z)%Q.
Proof. intros Hz. unfold float64, Qlt. simpl. lia. Qed.

Section TokenWeight.

Context (c : Classifier) (t : string).

Lemma countTokenInCategory_at2 (cat : string) :
  countTokenInCategory c t cat = float64 (at2 (MapTokenToCategory c) t cat).
Proof.
  unfold countTokenInCategory, at2.
  by destruct (MapTokenToCategory c !! t).
Qed.

(** Both loops over the categories compute [totalSeen]. *)
Lemma weight_loop_totalSeen :
  (fold_left (λ weight cat,
                weight + float64 (at2 (MapTokenToCategory c) t cat))
             (getModelCategories c) 0
   == totalSeen c t)%Q.
Proof.
  rewrite foldl_Qplus. unfold totalSeen.
  rewrite (list_fmap_ext (countTokenInCategory c t)
             (λ cat, float64 (at2 (MapTokenToCategory c) t cat)))
    by (intros; apply countTokenInCategory_at2).
  ring.
Qed.

Lemma sum_loop_totalSeen :
  (fold_left (λ sum category, sum + countTokenInCategory c t category)
             (getModelCategories c) 0
   == totalSeen c t)%Q.
Proof. rewrite foldl_Qplus. unfold totalSeen. ring. Qed.

(** The two loops in any iteration order of the categories. *)
Lemma weight_loop_any_order (order : list string) :
  order ≡ₚ getModelCategories c →
  (fold_left (λ weight cat,
                weight + float64 (at2 (MapTokenToCategory c) t cat))
             order 0
   == totalSeen c t)%Q.
Proof.
  intros Hperm. rewrite <- weight_loop_totalSeen, !foldl_Qplus.
  by rewrite (sumQ_Permutation _ _ (fmap_Permutation _ _ _ Hperm)).
Qed.

Lemma sum_loop_any_order (order : list string) :
  order ≡ₚ getModelCategories c →
  (fold_left (λ sum category, sum + countTokenInCategory c t category)
             order 0
   == totalSeen c t)%Q.
Proof.
  intros Hperm. rewrite <- sum_loop_totalSeen, !foldl_Qplus.
  by rewrite (sumQ_Permutation _ _ (fmap_Permutation _ _ _ Hperm)).
Qed.

Hypothesis Hcounts : nonnegCounts (default ∅ (MapTokenToCategory c !! t)).

Lemma totalSeen_nonneg : (0 <= totalSeen c t)%Q.
Proof.
  apply sumQ_nonneg, Forall_fmap, Forall_forall.
  intros cat _. simpl. rewrite countTokenInCategory_at2.
  by apply float64_nonneg, at2_nonneg.
Qed.

(** The weight of a token is the number of times it was seen, and 0.001
    for a token never seen. *)
Lemma calcTokenWeight_floor :
  (calcTokenWeight c t
   == if Qeq_bool (totalSeen c t) 0 then 1 # 1000 else totalSeen c t)%Q.
Proof.
  pose proof totalSeen_nonneg as Hge.
  pose proof weight_loop_totalSeen as Hw.
  unfold calcTokenWeight. cbv zeta.
  destruct (Qgtb _ 0) eqn:E.
  - apply Qgtb_spec in E. rewrite Hw in E |- *.
    destruct (Qeq_bool (totalSeen c t) 0) eqn:E0; [|reflexivity].
    apply Qeq_bool_iff in E0. lra.
  - apply Qgtb_false in E. rewrite Hw in E.
    destruct (Qeq_bool (totalSeen c t) 0) eqn:E0; [reflexivity|].
    apply Qeq_bool_neq in E0. exfalso. apply E0. lra.
Qed.

End TokenWeight.

Lemma elem_of_mapKeys (m : gmap string Z) (k : string) :
  k ∈ mapKeys m ↔ is_Some (m !! k).
Proof.
  unfold mapKeys. rewrite list_elem_of_fmap. split.
  - intros ([k' v] & -> & Hin). apply elem_of_map_to_list in Hin.
    by eexists.
  - intros [v Hv]. exists (k, v). split; [done|].
    by apply elem_of_map_to_list.
Qed.





Section Rounding.

Import PrimFloat.
Local Open Scope float_scope.


End Rounding.

(** *** The category prior *)

Lemma len_nonneg (m : gmap string Z) : (0 <= len m)%Z.
Proof. unfold len. lia. Qed.

(** With one category the prior is [float64(1/1) = 1]. *)
Lemma getProb_single (c : Classifier) (data cat : string) :
  len (CategoriesCount c) = 1%Z →
  getProb c data cat = Some (getTextProb c data cat * 1)%Q.
Proof. intros Hn. unfold getProb. rewrite Hn. reflexivity. Qed.

(** With two categories or more the prior is [float64(1/n) = 0]: the
    division is a division of integers. *)
Lemma getProb_truncated (c : Classifier) (data cat : string) :
  (2 <= len (CategoriesCount c))%Z →
  getProb c data cat = Some (getTextProb c data cat * 0)%Q.
Proof.
  intros Hn. unfold getProb.
  destruct (Z.eqb_spec (len (CategoriesCount c)) 0); [lia|].
  rewrite Z.quot_small by lia. reflexivity.
Qed.

(** C9.  When exactly one category [X] is trained, the score of every
    text for [X] is its text probability. *)
Theorem C9_single_category (c : Classifier) (text X : string) :
  dom (CategoriesCount c) = {[X]} →
  ∃ score,
    getProb c text X = Some score ∧ (score == getTextProb c text X)%Q.
Proof.
  intros Hdom. eexists. split.
  - apply getProb_single. unfold len.
    by rewrite <- size_dom, Hdom, size_singleton.
  - ring.
Qed.

(** The theorem at the model trained once. *)
Lemma C9_single_category_witness :
  dom (CategoriesCount trainedOne) = {["animals"]} ∧
  ∃ score,
    getProb trainedOne "кот на окне" "animals" = Some score ∧
    (score == getTextProb trainedOne "кот на окне" "animals")%Q.
Proof.
  assert (dom (CategoriesCount trainedOne) = {["animals"]}) as H
    by (by vm_compute).
  split; [exact H|].
  exact (C9_single_category trainedOne "кот на окне" "animals" H).
Defined.

(** C1 (defect of the code).  The uniform prior of [getProb] is computed by
    a division of integers.  In the model trained with the two categories
    "animals" and "finance" the score of a document for "animals" is 0,
    while its text probability times the real quotient 1/2 is 3/64000. *)
Theorem C1_prior_is_truncated :
  len (CategoriesCount trainedTwo) = 2%Z ∧
  CategoriesCount trainedTwo !! "animals" = Some 1%Z ∧
  ∃ score,
    getProb trainedTwo "кот и акция" "animals" = Some score ∧
    (score == 0)%Q ∧
    (getTextProb trainedTwo "кот и акция" "animals"
     * (1 / float64 (len (CategoriesCount trainedTwo))) == 3 # 64000)%Q.
Proof.
  split; [by vm_compute|]. split; [by vm_compute|].
  eexists. split; [apply getProb_truncated; by vm_compute|].
  split; by vm_compute.
Qed.

(** ** Classify *)

(** The empty document is refused before the model is read. *)
Lemma ClassifyWith_empty_input (order : list string) (c : Classifier) :
  ClassifyWith order c "" = Some ("", 0%Q, Some ErrEmptyText).
Proof. reflexivity. Qed.

(** The division [1 / len(c.CategoriesCount)] does not panic for a
    category of the model. *)
Lemma getProb_known (c : Classifier) (data cat : string) :
  is_Some (CategoriesCount c !! cat) → is_Some (getProb c data cat).
Proof.
  intros [v Hv]. unfold getProb, len.
  destruct (Z.eqb_spec (Z.of_nat (size (CategoriesCount c))) 0) as [H0|];
    [|by eexists].
  assert (size (CategoriesCount c) = 0%nat) as Hsz by lia.
  apply map_size_empty_iff in Hsz. rewrite Hsz in Hv. done.
Qed.

Lemma classifyLoop_total (c : Classifier) (data : string)
    (cats : list string) (m : Q) (g : string) :
  (∀ cat, cat ∈ cats → is_Some (CategoriesCount c !! cat)) →
  is_Some (classifyLoop c data cats m g).
Proof.
  revert m g. induction cats as [|cat cats IH]; intros m g Hk; simpl;
    [by eexists|].
  destruct (getProb_known c data cat) as [p ->]; [apply Hk; left|].
  simpl. destruct (Qgtb p m); apply IH; intros; apply Hk; by right.
Qed.

(** [Classify] never panics. *)
Lemma ClassifyWith_no_panic (order : list string) (c : Classifier)
    (data : string) :
  order ≡ₚ getModelCategories c → is_Some (ClassifyWith order c data).
Proof.
  intros Hperm. unfold ClassifyWith.
  destruct (String.eqb data ""); [by eexists|].
  destruct (classifyLoop_total c data order 0%Q "") as [[m g] ->].
  - intros cat Hin. apply elem_of_mapKeys. by rewrite <- Hperm.
  - simpl. destruct (String.eqb g ""); by eexists.
Qed.

(** The guess of the loop when no visited category has the empty name:
    the guess stays empty exactly when it was empty and no score is
    positive. *)
Lemma classifyLoop_guess (c : Classifier) (data : string)
    (cats : list string) (m : Q) (g : string) (m' : Q) (g' : string) :
  "" ∉ cats → (g = "" → (m == 0)%Q) →
  classifyLoop c data cats m g = Some (m', g') →
  g' = "" ↔
  g = "" ∧ ∀ cat p, cat ∈ cats → getProb c data cat = Some p → ¬ (0 < p)%Q.
Proof.
  revert m g. induction cats as [|cat cats IH]; intros m g Hne Hinv Hrun.
  - simpl in Hrun. injection Hrun as <- <-. split; [|tauto].
    intros Hg. split; [done|]. intros cat p Hin. by apply elem_of_nil in Hin.
  - apply not_elem_of_cons in Hne as [Hcat Hne].
    simpl in Hrun. destruct (getProb c data cat) as [p|] eqn:Hp; [|done].
    simpl in Hrun. destruct (Qgtb p m) eqn:E.
    + apply Qgtb_spec in E.
      apply IH in Hrun; [|done|congruence]. rewrite Hrun.
      split; [intros [? _]; congruence|].
      intros [Hg Hall]. exfalso. specialize (Hinv Hg).
      apply (Hall cat p); [left|done|]. lra.
    + apply Qgtb_false in E.
      apply IH in Hrun; [|done|done]. rewrite Hrun.
      split; intros [Hg Hall]; (split; [done|]).
      * intros cat' p' Hin Hp'. apply elem_of_cons in Hin as [->|Hin].
        -- assert (p' = p) as -> by congruence. specialize (Hinv Hg). lra.
        -- by apply (Hall cat' p').
      * intros cat' p' Hin. apply Hall. by right.
Qed.

(** For a model whose categories all have a name, and a document that is
    not empty, [Classify] answers [ErrNotClassified] exactly when no
    category has a score greater than 0. *)
Lemma ClassifyWith_NoMatch_iff (order : list string) (c : Classifier)
    (data : string) :
  order ≡ₚ getModelCategories c → data ≠ "" → "" ∉ order →
  ClassifyWith order c data = Some ("", 0%Q, Some ErrNotClassified) ↔
  ∀ cat p, cat ∈ order → getProb c data cat = Some p → ¬ (0 < p)%Q.
Proof.
  intros Hperm Hdata Hne. unfold ClassifyWith.
  destruct (String.eqb_spec data ""); [done|].
  destruct (classifyLoop_total c data order 0%Q "") as [[m g] Hrun].
  { intros cat Hin. apply elem_of_mapKeys. by rewrite <- Hperm. }
  rewrite Hrun. simpl.
  pose proof (classifyLoop_guess c data order 0%Q "" m g Hne
                ltac:(reflexivity) Hrun) as Hg.
  destruct (String.eqb_spec g "") as [->|Hgne].
  - split; [|done]. intros _. by apply Hg.
  - split; [intros [=]; congruence|].
    intros Hall. exfalso. apply Hgne. apply Hg. done.
Qed.

(** When no score exceeds the running maximum the loop changes nothing. *)
Lemma classifyLoop_no_gain (c : Classifier) (data : string)
    (cats : list string) (m : Q) (g : string) :
  (∀ cat, cat ∈ cats → ∃ p, getProb c data cat = Some p ∧ (p <= m)%Q) →
  classifyLoop c data cats m g = Some (m, g).
Proof.
  induction cats as [|cat cats IH]; intros Hall; simpl; [done|].
  destruct (Hall cat) as (p & -> & Hp); [left|]. simpl.
  apply Qgtb_false in Hp. rewrite Hp.
  apply IH. intros cat' Hin. apply Hall. by right.
Qed.

(** A model of two categories or more classifies nothing: every score is
    zero, so [Classify] answers [ErrNotClassified] on every document that
    is not empty, in every iteration order. *)
Lemma ClassifyWith_truncated (order : list string) (c : Classifier)
    (data : string) :
  (2 <= len (CategoriesCount c))%Z → data ≠ "" →
  ClassifyWith order c data = Some ("", 0%Q, Some ErrNotClassified).
Proof.
  intros Hn Hdata. unfold ClassifyWith.
  destruct (String.eqb_spec data ""); [done|].
  rewrite classifyLoop_no_gain; [done|].
  intros cat _. eexists. split; [by apply getProb_truncated|]. lra.
Qed.

(** C2 (defect of the code).  After the two [Train] calls of the
    end-to-end example, [Classify "кот и акция"] does not succeed: in every
    iteration order it returns the error [ErrNotClassified] with an empty
    label and confidence 0. *)
Theorem C2_end_to_end_not_classified (order : list string) :
  ClassifyWith order trainedTwo "кот и акция"
  = Some ("", 0%Q, Some ErrNotClassified).
Proof. apply ClassifyWith_truncated; by vm_compute. Qed.

(** The sibling [GetProb] does report the category of empty name with its
    positive score. *)
Lemma GetProbWith_unnamed :
  ∃ probs,
    GetProbWith [""] trainedUnnamed "кот" = Some (probs, "") ∧
    ∃ p, probs !! "" = Some p ∧ (0 < p)%Q.
Proof.
  eexists. split; [by vm_compute|].
  eexists. split; [by vm_compute|]. by vm_compute.
Qed.

(** C6 (defect of the code).  In the model trained once with the category
    of empty name, the document "кот" has a score greater than 0 for that
    category, and yet [Classify] returns [ErrNotClassified]. *)
Theorem C6_unnamed_category_is_not_classified :
  getModelCategories trainedUnnamed = [""] ∧
  (∃ p, getProb trainedUnnamed "кот" "" = Some p ∧ (0 < p)%Q) ∧
  Classify trainedUnnamed "кот" = Some ("", 0%Q, Some ErrNotClassified).
Proof.
  split; [by vm_compute|]. split; [|by vm_compute].
  eexists. split; [apply getProb_single; by vm_compute|]. by vm_compute.
Qed.

(** * Further properties *)

(** ** Order of strings *)

Lemma ascii_compare_N (a b : Ascii.ascii) :
  Ascii.compare a b = N.compare (Ascii.N_of_ascii a) (Ascii.N_of_ascii b).
Proof. reflexivity. Qed.

Lemma string_leb_refl (s : string) : String.leb s s = true.
Proof.
  unfold String.leb. induction s as [|a s IH]; [done|].
  simpl. rewrite ascii_compare_N, N.compare_refl. done.
Qed.

Lemma string_compare_trans (c : comparison) (s1 s2 s3 : string) :
  c ≠ Eq →
  (String.compare s1 s2 = c ∨ String.compare s1 s2 = Eq) →
  (String.compare s2 s3 = c ∨ String.compare s2 s3 = Eq) →
  String.compare s1 s3 = c ∨ String.compare s1 s3 = Eq.
Proof.
  intros Hc. revert s2 s3.
  induction s1 as [|a s1 IH]; intros [|b s2] [|d s3]; simpl;
    try (intuition congruence).
  rewrite !ascii_compare_N.
  destruct (N.compare_spec (Ascii.N_of_ascii a) (Ascii.N_of_ascii b)) as [E1|L1|G1];
    destruct (N.compare_spec (Ascii.N_of_ascii b) (Ascii.N_of_ascii d)) as [E2|L2|G2];
    destruct (N.compare_spec (Ascii.N_of_ascii a) (Ascii.N_of_ascii d)) as [E3|L3|G3];
    try lia; try (intuition congruence).
  apply IH.
Qed.

Lemma string_leb_trans (s1 s2 s3 : string) :
  String.leb s1 s2 = true → String.leb s2 s3 = true →
  String.leb s1 s3 = true.
Proof.
  unfold String.leb. intros H1 H2.
  destruct (string_compare_trans Lt s1 s2 s3) as [-> | ->]; try done.
  - destruct (String.compare s1 s2); [by right|by left|done].
  - destruct (String.compare s2 s3); [by right|by left|done].
Qed.

Lemma string_leb_ltb (s1 s2 : string) :
  String.leb s1 s2 = negb (String.ltb s2 s1).
Proof.
  unfold String.leb, String.ltb. rewrite (String.compare_antisym s2 s1).
  by destruct (String.compare s1 s2).
Qed.

(** ** Binary search *)

(** On a predicate that is monotone on the interval, [Search] returns the
    boundary between the indices that fail it and those that satisfy it. *)
Lemma searchLoop_boundary (f : Z → bool) (i j : Z) :
  (i <= j)%Z →
  (∀ h h', (i <= h)%Z → (h <= h')%Z → (h' < j)%Z →
           f h = true → f h' = true) →
  (∀ h, (i <= h < sort.searchLoop f i j)%Z → f h = false) ∧
  (∀ h, (sort.searchLoop f i j <= h < j)%Z → f h = true).
Proof.
  remember (Z.to_nat (j - i)) as n eqn:Hn. revert i j Hn.
  induction (lt_wf n) as [n _ IH]. intros i j -> Hij Hmono.
  rewrite searchLoop_eq.
  destruct (Z_lt_dec i j) as [Hlt|]; [|split; intros; lia].
  pose proof (midpoint_bounds i j Hlt) as Hh.
  destruct (f (Z.shiftr (i + j) 1)) eqn:Hf; simpl.
  - destruct (IH (Z.to_nat (Z.shiftr (i + j) 1 - i)) ltac:(lia)
                i (Z.shiftr (i + j) 1) eq_refl ltac:(lia)) as [Hlo Hhi].
    { intros h h' ? ? ?. apply Hmono; lia. }
    pose proof (searchLoop_range f i (Z.shiftr (i + j) 1) ltac:(lia)).
    split; [done|]. intros h Hr.
    destruct (Z_lt_dec h (Z.shiftr (i + j) 1)); [apply Hhi; lia|].
    apply (Hmono (Z.shiftr (i + j) 1)); [lia|lia|lia|done].
  - destruct (IH (Z.to_nat (j - (Z.shiftr (i + j) 1 + 1))) ltac:(lia)
                (Z.shiftr (i + j) 1 + 1)%Z j eq_refl ltac:(lia)) as [Hlo Hhi].
    { intros h h' ? ? ?. apply Hmono; lia. }
    pose proof (searchLoop_range f (Z.shiftr (i + j) 1 + 1) j ltac:(lia)).
    split; [|intros h Hr; apply Hhi; lia].
    intros h Hr.
    destruct (Z_lt_dec h (Z.shiftr (i + j) 1 + 1)); [|apply Hlo; lia].
    destruct (f h) eqn:Hfh; [|done].
    rewrite (Hmono h (Z.shiftr (i + j) 1)) in Hf; [done|lia|lia|lia|done].
Qed.

Lemma StringsAreSorted_cons (a : string) (tl : list string) :
  sort.StringsAreSorted (a :: tl) = true →
  Forall (λ b, String.leb a b = true) tl ∧ sort.StringsAreSorted tl = true.
Proof.
  revert a. induction tl as [|b tl IH]; intros a Hs; [done|].
  cbn [sort.StringsAreSorted] in Hs. apply andb_true_iff in Hs as [Hab Hs].
  rewrite <- string_leb_ltb in Hab.
  destruct (IH b Hs) as [Hall Htl]. split; [|done].
  constructor; [done|].
  eapply Forall_impl; [exact Hall|]. intros d Hd. simpl in Hd.
  by apply (string_leb_trans a b d).
Qed.

Lemma StringsAreSorted_lookup (tbl : list string) (i j : nat) (a b : string) :
  sort.StringsAreSorted tbl = true → (i <= j)%nat →
  tbl !! i = Some a → tbl !! j = Some b → String.leb a b = true.
Proof.
  revert i j. induction tbl as [|x tbl IH]; intros i j Hs Hij Hi Hj; [done|].
  destruct (StringsAreSorted_cons x tbl Hs) as [Hall Htl].
  destruct i as [|i], j as [|j]; simpl in *; simplify_eq.
  - apply string_leb_refl.
  - rewrite Forall_forall in Hall. apply Hall.
    by apply list_elem_of_lookup_2 in Hj.
  - lia.
  - apply (IH i j); [done|lia|done|done].
Qed.

(** ** The stop-word oracle, further *)

(** X1.  Whatever the table and the word, the lookup of [IsStopWord]
    returns a boolean: the index expression is never evaluated out of the
    range of the table, so the function does not panic. *)
Theorem X1_IsStopWord_never_panics (tbl : list string) (v : string) :
  ∃ b, IsStopWordIn tbl v = Some b ∧
       (0 <= sort.SearchStrings tbl (strings.ToLower v)
          <= Z.of_nat (length tbl))%Z.
Proof.
  destruct (IsStopWordIn_in_bounds tbl v) as [b Hb].
  exists b. split; [done|]. apply SearchStrings_range.
Qed.

Lemma geAt_monotone (tbl : list string) (x : string) (h h' : Z) :
  sort.StringsAreSorted tbl = true →
  (0 <= h)%Z → (h <= h')%Z → (h' < Z.of_nat (length tbl))%Z →
  sort.geAt tbl x h = true → sort.geAt tbl x h' = true.
Proof.
  intros Hs H0 Hle Hlt. unfold sort.geAt.
  destruct (lookup_lt_is_Some_2 tbl (Z.to_nat h)) as [a Ha]; [lia|].
  destruct (lookup_lt_is_Some_2 tbl (Z.to_nat h')) as [b Hb]; [lia|].
  rewrite Ha, Hb. intros Hxa.
  apply (string_leb_trans x a b); [done|].
  apply (StringsAreSorted_lookup tbl (Z.to_nat h) (Z.to_nat h')); [done|lia|done|done].
Qed.

(** X2.  Over a table that is sorted, [IsStopWord] answers [true] exactly
    for the words whose lower-case form is in the table and for the words
    whose lower-case form is greater than every entry (in particular for
    every word when the table is empty). *)
Theorem X2_IsStopWord_on_sorted_table (tbl : list string) (v : string) :
  sort.StringsAreSorted tbl = true →
  IsStopWordIn tbl v = Some true ↔
  strings.ToLower v ∈ tbl ∨
  Forall (λ w, String.ltb w (strings.ToLower v) = true) tbl.
Proof.
  intros Hs. unfold IsStopWordIn. cbv zeta.
  set (x := strings.ToLower v).
  pose proof (SearchStrings_range tbl x) as Hr.
  destruct (searchLoop_boundary (sort.geAt tbl x) 0 (Z.of_nat (length tbl))
              ltac:(lia)) as [Hlo Hhi].
  { intros h h' ? ? ?. by apply geAt_monotone. }
  change (sort.searchLoop (sort.geAt tbl x) 0 (Z.of_nat (length tbl)))
    with (sort.SearchStrings tbl x) in Hlo, Hhi.
  assert (∀ k w, tbl !! k = Some w →
            (Z.of_nat k < sort.SearchStrings tbl x)%Z →
            String.ltb w x = true) as Hless.
  { intros k w Hk Hlt. specialize (Hlo (Z.of_nat k) ltac:(lia)).
    unfold sort.geAt in Hlo. rewrite Nat2Z.id, Hk in Hlo.
    rewrite string_leb_ltb in Hlo. by apply negb_false_iff in Hlo. }
  destruct (Z.leb_spec (Z.of_nat (length tbl)) (sort.SearchStrings tbl x))
    as [Hge|Hlt].
  - split; [|done]. intros _. right. apply Forall_lookup. intros k w Hk.
    apply (Hless k w Hk). apply lookup_lt_Some in Hk. lia.
  - destruct (Z.ltb_spec (sort.SearchStrings tbl x) 0); [lia|].
    destruct (lookup_lt_is_Some_2 tbl (Z.to_nat (sort.SearchStrings tbl x)))
      as [w Hw]; [lia|].
    rewrite Hw. simpl.
    assert (String.leb x w = true) as Hxw.
    { specialize (Hhi (sort.SearchStrings tbl x) ltac:(lia)).
      unfold sort.geAt in Hhi. by rewrite Hw in Hhi. }
    split.
    + intros [= Heq]. apply String.eqb_eq in Heq. subst w. left.
      by apply list_elem_of_lookup_2 in Hw.
    + intros [Hin|Hall]; f_equal; apply String.eqb_eq.
      * apply list_elem_of_lookup_1 in Hin as [k Hk].
        destruct (Z_lt_dec (Z.of_nat k) (sort.SearchStrings tbl x)) as [Hk'|Hk'].
        -- pose proof (Hless k x Hk Hk') as Hxx.
           rewrite string_leb_ltb in Hxw.
           pose proof (string_leb_refl x) as Hrefl.
           rewrite string_leb_ltb, Hxx in Hrefl. done.
        -- apply String.leb_antisym; [|done].
           apply (StringsAreSorted_lookup tbl
                    (Z.to_nat (sort.SearchStrings tbl x)) k); [done|lia|done|done].
      * rewrite Forall_lookup in Hall. specialize (Hall _ _ Hw).
        simpl in Hall. rewrite string_leb_ltb, Hall in Hxw. done.
Qed.

(** The theorem on a sorted table of three words and a capitalised word. *)
Lemma X2_IsStopWord_on_sorted_table_witness :
  sort.StringsAreSorted ["а"; "в"; "и"] = true ∧
  (IsStopWordIn ["а"; "в"; "и"] "И" = Some true ↔
   strings.ToLower "И" ∈ ["а"; "в"; "и"] ∨
   Forall (λ w, String.ltb w (strings.ToLower "И") = true) ["а"; "в"; "и"]).
Proof.
  assert (sort.StringsAreSorted ["а"; "в"; "и"] = true) as H by reflexivity.
  split; [exact H|].
  exact (X2_IsStopWord_on_sorted_table ["а"; "в"; "и"] "И" H).
Defined.

(** ** The stream combinators *)

Lemma apply_Forall (fs : list Predicate) (x : string) :
  apply fs x = true ↔ Forall (λ f, f x = true) fs.
Proof.
  induction fs as [|f fs IH]; simpl; [by split|].
  destruct (f x) eqn:E; simpl.
  - rewrite IH. split; [by constructor|by inversion 1].
  - split; [done|]. inversion 1; congruence.
Qed.

Lemma apply_app (fs gs : list Predicate) (x : string) :
  apply (fs ++ gs) x = apply fs x && apply gs x.
Proof.
  induction fs as [|f fs IH]; simpl; [done|].
  by destruct (f x).
Qed.

Lemma Filter_nil (vs : list string) : Filter vs [] = vs.
Proof.
  unfold Filter. induction vs as [|v vs IH]; simpl in *; [done|]. by f_equal.
Qed.

Lemma Map_nil (vs : list string) : Map vs [] = vs.
Proof. unfold Map. simpl. apply list_fmap_id. Qed.

(** X3.  [Filter] delivers its input, in the same order, without the
    words that fail a predicate: a word that passes every predicate occurs
    as many times as in the input, and no other word occurs.  With no
    predicate the whole input is delivered. *)
Theorem X3_Filter_keeps_what_passes (vs : list string) (fs : list Predicate) :
  sublist (Filter vs fs) vs ∧
  (∀ x, occurrences x (Filter vs fs)
        = if decide (Forall (λ f, f x = true) fs)
          then occurrences x vs else 0%nat) ∧
  Filter vs [] = vs.
Proof.
  split; [|split]; [unfold Filter|unfold Filter, occurrences|].
  - induction vs as [|v vs IH]; simpl; [constructor|].
    destruct (apply fs v); by constructor.
  - intros x. induction vs as [|v vs IH]; simpl; [by case_decide|].
    destruct (apply fs v) eqn:E; simpl.
    + destruct (String.eqb_spec x v) as [->|Hne]; simpl; [|done].
      apply apply_Forall in E. rewrite IH. by rewrite !decide_True.
    + destruct (String.eqb_spec x v) as [->|Hne]; simpl; [|done].
      rewrite IH. rewrite !decide_False; [done| |];
        rewrite <- apply_Forall; congruence.
  - apply Filter_nil.
Qed.

(** X4.  Stages compose: filtering with [fs] and then with [gs] is
    filtering with [fs ++ gs], and mapping with [f] and then with [g] is
    mapping with [f ++ g]; [Map] keeps the number and the order of the
    elements, each one being the input element sent through the mappers
    from left to right. *)
Theorem X4_stages_compose (vs : list string) (fs gs : list Predicate)
    (f g : list Mapper) :
  Filter (Filter vs fs) gs = Filter vs (fs ++ gs) ∧
  Map (Map vs f) g = Map vs (f ++ g) ∧
  (∀ i, Map vs f !! i = (λ v, fold_left (λ v fn, fn v) f v) <$> vs !! i).
Proof.
  split; [|split].
  - unfold Filter. induction vs as [|v vs IH]; simpl; [done|].
    rewrite apply_app. destruct (apply fs v); simpl; [|done].
    destruct (apply gs v); simpl; by rewrite IH.
  - unfold Map. rewrite <- list_fmap_compose. apply list_fmap_ext.
    intros i v _. simpl. by rewrite fold_left_app.
  - intros i. unfold Map. apply list_lookup_fmap.
Qed.

(** ** Blank documents *)

Lemma asciiSpace_isSpace (b : Z) :
  asciiSpace b = true → bufio.isSpace b = true ∧ (b <? utf8.RuneSelf)%Z = true.
Proof.
  unfold asciiSpace, bufio.isSpace, utf8.RuneSelf. intros H.
  apply orb_true_iff in H as [H|H].
  - apply andb_true_iff in H as [H1 H2].
    apply Z.leb_le in H1. apply Z.leb_le in H2.
    destruct (Z.leb_spec b 255); [|lia]. split; [|by apply Z.ltb_lt; lia].
    destruct (Z.leb_spec 9 b), (Z.leb_spec b 13); try lia;
      simpl; by rewrite ?orb_true_r.
  - apply Z.eqb_eq in H. subst b. done.
Qed.

Lemma scan_blank (p : list Z) :
  Forall (λ b, asciiSpace b = true) p → bufio.scan (utf8.decode p) [] = [].
Proof.
  induction 1 as [|b p Hb _ IH]; [done|].
  destruct (asciiSpace_isSpace b Hb) as [Hsp Hlt].
  rewrite utf8.decode_equation_2. cbv zeta.
  assert (utf8.DecodeRune (b :: p) = (b, 1%nat)) as ->
    by (unfold utf8.DecodeRune; by rewrite Hlt).
  simpl. by rewrite Hsp.
Qed.

(** X5.  A document made of ASCII white space only (spaces, tabs, line
    breaks) has no token, with the default tokenizer and whatever filters
    and transforms the options set; these options keep the default
    capacity 100 of the channel. *)
Theorem X5_blank_document_has_no_token (fs : list Predicate)
    (ms : list Mapper) (data : string) :
  Forall (λ b, asciiSpace b = true) (bytesOf data) →
  Tokenize (NewTokenizer []) data = [] ∧
  bufferSize (NewTokenizer [Filters fs; Transforms ms]) = 100%Z ∧
  Tokenize (NewTokenizer [Filters fs; Transforms ms]) data = [].
Proof.
  intros Hblank. unfold Tokenize, bufio.words.
  by rewrite (scan_blank _ Hblank).
Qed.

(** The theorem on a document of three spaces. *)
Lemma X5_blank_document_has_no_token_witness :
  Forall (λ b, asciiSpace b = true) (bytesOf "   ") ∧
  Tokenize (NewTokenizer []) "   " = [] ∧
  bufferSize (NewTokenizer [Filters []; Transforms [strings.ToLower]])
  = 100%Z ∧
  Tokenize (NewTokenizer [Filters []; Transforms [strings.ToLower]]) "   "
  = [].
Proof.
  assert (Forall (λ b, asciiSpace b = true) (bytesOf "   ")) as H
    by (apply (bool_decide_unpack _); by vm_compute).
  split; [exact H|].
  exact (X5_blank_document_has_no_token [] [strings.ToLower] "   " H).
Defined.

(** ** The frequency model, further *)

Lemma MapTokenToCategory_addToken (t cat : string) (c : Classifier) :
  MapTokenToCategory (addToken t cat c)
  = recordToken cat (MapTokenToCategory c) t.
Proof.
  unfold addToken, recordToken. cbn [MapTokenToCategory].
  destruct (MapTokenToCategory c !! t) eqn:E.
  - by rewrite E.
  - by rewrite lookup_insert_eq, insert_insert_eq.
Qed.

Lemma at2_recordToken (m : gmap string (gmap string Z))
    (t cat t' cat' : string) :
  at2 (recordToken cat m t) t' cat'
  = if decide (t = t' ∧ cat = cat') then incr (at2 m t cat)
    else at2 m t' cat'.
Proof.
  unfold at2, recordToken. rewrite lookup_insert.
  destruct (decide (t = t')) as [->|Ht]; simpl.
  - rewrite at1_incrAt.
    destruct (decide (cat = cat')) as [->|Hc].
    + by rewrite decide_True.
    + rewrite decide_False; [done|]. by intros [_ ?].
  - rewrite decide_False; [done|]. by intros [? _].
Qed.

(** X6.  [addToken t cat] adds one, in the arithmetic of [int], to the
    record of [t] under [cat], creating it from zero when it is missing;
    it changes no other record, no training count and not the
    tokenizer. *)
Theorem X6_addToken_updates_one_record (t cat t' cat' : string)
    (c : Classifier) :
  at2 (MapTokenToCategory (addToken t cat c)) t' cat'
  = (if decide (t = t' ∧ cat = cat')
     then incr (at2 (MapTokenToCategory c) t cat)
     else at2 (MapTokenToCategory c) t' cat') ∧
  is_Some (MapTokenToCategory (addToken t cat c) !! t) ∧
  CategoriesCount (addToken t cat c) = CategoriesCount c ∧
  tokenizer (addToken t cat c) = tokenizer c.
Proof.
  rewrite MapTokenToCategory_addToken. split; [apply at2_recordToken|].
  split; [|done]. unfold recordToken. rewrite lookup_insert_eq. by eexists.
Qed.

Lemma addTokens_normal_form (tokens : list string) (cat : string)
    (c : Classifier) :
  fold_left (λ c t, addToken t cat c) tokens c
  = mkClassifier (fold_left (recordToken cat) tokens (MapTokenToCategory c))
                 (CategoriesCount c) (tokenizer c).
Proof.
  revert c. induction tokens as [|t tokens IH]; intros c; [by destruct c|].
  simpl. rewrite IH, MapTokenToCategory_addToken. done.
Qed.

Lemma Train_normal_form (doc cat : string) (c : Classifier) :
  (Train doc cat c).1
  = mkClassifier
      (fold_left (recordToken cat) (tokenizer c doc) (MapTokenToCategory c))
      (incrAt (CategoriesCount c) cat) (tokenizer c).
Proof.
  unfold Train. cbn [fst]. rewrite addTokens_normal_form. done.
Qed.

Lemma occurrences_app (t : string) (l1 l2 : list string) :
  occurrences t (l1 ++ l2) = (occurrences t l1 + occurrences t l2)%nat.
Proof. unfold occurrences. by rewrite List.filter_app, length_app. Qed.

Lemma iter_incr_succ (n : nat) (x : Z) :
  Nat.iter (S n) incr x = wrap64 (x + Z.of_nat (S n)).
Proof.
  induction n as [|n IH]; [done|].
  rewrite Nat.iter_succ, IH. unfold incr. rewrite wrap64_add_l.
  f_equal. lia.
Qed.

Lemma iter_incr_exact (n : nat) (x : Z) :
  (- 2 ^ 63 <= x)%Z → (x + Z.of_nat n < 2 ^ 63)%Z →
  Nat.iter n incr x = (x + Z.of_nat n)%Z.
Proof.
  intros Hlo Hhi. destruct n as [|n]; [simpl; lia|].
  rewrite iter_incr_succ. apply wrap64_small. lia.
Qed.

Lemma at2_recordTokens (tokens : list string) (cat : string)
    (m : gmap string (gmap string Z)) (t' cat' : string) :
  at2 (fold_left (recordToken cat) tokens m) t' cat'
  = if decide (cat = cat')
    then Nat.iter (occurrences t' tokens) incr (at2 m t' cat')
    else at2 m t' cat'.
Proof.
  revert m. induction tokens as [|a tokens IH]; intros m.
  - simpl. by case_decide.
  - simpl fold_left. rewrite IH, at2_recordToken, occurrences_cons.
    destruct (decide (cat = cat')) as [->|Hc].
    + destruct (decide (a = t')) as [->|Ha].
      * rewrite decide_True by done. by rewrite Nat.iter_succ_r.
      * rewrite decide_False by (by intros [? _]). done.
    + rewrite decide_False by (by intros [_ ?]). done.
Qed.

Lemma at2_Train (doc k t cat : string) (c : Classifier) :
  at2 (MapTokenToCategory (Train doc k c).1) t cat
  = if decide (k = cat)
    then Nat.iter (occurrences t (tokenizer c doc)) incr
                  (at2 (MapTokenToCategory c) t cat)
    else at2 (MapTokenToCategory c) t cat.
Proof. rewrite Train_normal_form. apply at2_recordTokens. Qed.

(** X7.  A [Train] call for the category [k] returns no error, keeps the
    tokenizer, and leaves the statistics of every other category as they
    were: its token records and its training count. *)
Theorem X7_Train_leaves_other_categories (doc k k' : string)
    (c : Classifier) :
  k ≠ k' →
  (Train doc k c).2 = None ∧
  tokenizer (Train doc k c).1 = tokenizer c ∧
  CategoriesCount (Train doc k c).1 !! k' = CategoriesCount c !! k' ∧
  ∀ t, at2 (MapTokenToCategory (Train doc k c).1) t k'
       = at2 (MapTokenToCategory c) t k'.
Proof.
  intros Hk. split; [done|]. split; [apply tokenizer_Train|]. split.
  - rewrite CategoriesCount_Train. unfold incrAt.
    by rewrite lookup_insert_ne.
  - intros t. rewrite at2_Train. by rewrite decide_False.
Qed.

(** The theorem on a call for "finance" after a call for "animals". *)
Lemma X7_Train_leaves_other_categories_witness :
  "finance" ≠ "animals" ∧
  (Train "акция выросла" "finance" trainedOne).2 = None ∧
  tokenizer (Train "акция выросла" "finance" trainedOne).1
  = tokenizer trainedOne ∧
  CategoriesCount (Train "акция выросла" "finance" trainedOne).1 !! "animals"
  = CategoriesCount trainedOne !! "animals" ∧
  ∀ t, at2 (MapTokenToCategory
              (Train "акция выросла" "finance" trainedOne).1) t "animals"
       = at2 (MapTokenToCategory trainedOne) t "animals".
Proof.
  assert ("finance" ≠ "animals") as H by discriminate.
  split; [exact H|].
  exact (X7_Train_leaves_other_categories
           "акция выросла" "finance" "animals" trainedOne H).
Defined.

Lemma tokensOf_cons (tk : Tokenizer) (call : string * string)
    (calls : list (string * string)) :
  tokensOf tk (call :: calls) = tk call.1 ++ tokensOf tk calls.
Proof. reflexivity. Qed.

(** The record of a token after a sequence of calls, in general. *)
Lemma at2_trainAll (calls : list (string * string)) (c : Classifier)
    (t cat : string) :
  at2 (MapTokenToCategory (trainAll calls c)) t cat
  = Nat.iter (occurrences t (tokensOf (tokenizer c) (callsFor cat calls)))
             incr (at2 (MapTokenToCategory c) t cat).
Proof.
  revert c. induction calls as [|[doc k] calls IH]; intros c; [done|].
  change (trainAll ((doc, k) :: calls) c)
    with (trainAll calls (Train doc k c).1).
  rewrite IH, tokenizer_Train, at2_Train.
  unfold callsFor. cbn [List.filter snd].
  destruct (String.eqb_spec cat k) as [->|Hk].
  - rewrite decide_True by done.
    rewrite tokensOf_cons, occurrences_app, Nat.add_comm, Nat.iter_add. done.
  - rewrite decide_False by done. done.
Qed.

(** X8.  After a sequence of [Train] calls on a fresh classifier, the
    record of a token under a category is the number of times the
    tokenizer delivered this token over the documents trained under this
    category (as long as that number is below 2^63), and
    [countTokenInCategory] returns it. *)
Theorem X8_token_counts_after_training (calls : list (string * string))
    (c : Classifier) (t cat : string) :
  let n := occurrences t (tokensOf (tokenizer c) (callsFor cat calls)) in
  fresh c → (Z.of_nat n < 2 ^ 63)%Z →
  at2 (MapTokenToCategory (trainAll calls c)) t cat = Z.of_nat n ∧
  countTokenInCategory (trainAll calls c) t cat = float64 (Z.of_nat n).
Proof.
  intros n [Hm _] Hn.
  assert (at2 (MapTokenToCategory (trainAll calls c)) t cat = Z.of_nat n)
    as Hat.
  { assert (at2 (MapTokenToCategory c) t cat = 0%Z) as H0
      by (unfold at2, at1; by rewrite Hm, !lookup_empty).
    rewrite at2_trainAll, H0. fold n. clearbody n.
    rewrite iter_incr_exact; lia. }
  split; [done|]. by rewrite countTokenInCategory_at2, Hat.
Qed.

(** The theorem on three calls, for a word that occurs three times in the
    documents of its category. *)
Lemma X8_token_counts_after_training_witness :
  let calls := [("кот кот", "animals"); ("кот", "finance");
                ("окно кот", "animals")] in
  fresh (New []) ∧
  (Z.of_nat 3 < 2 ^ 63)%Z ∧
  at2 (MapTokenToCategory (trainAll calls (New []))) "кот" "animals"
  = Z.of_nat 3 ∧
  countTokenInCategory (trainAll calls (New [])) "кот" "animals"
  = float64 (Z.of_nat 3).
Proof.
  intros calls.
  assert (fresh (New [])) as H1 by (split; reflexivity).
  assert (Z.of_nat 3 < 2 ^ 63)%Z as H2 by reflexivity.
  split; [exact H1|]. split; [exact H2|].
  exact (X8_token_counts_after_training calls (New []) "кот" "animals" H1 H2).
Defined.

(** X9.  Token records never decrease: across any [Train] call the count
    of every token under every category stays equal or grows, as long as
    it is non-negative and the call cannot take it past the range of
    [int]. *)
Theorem X9_counts_never_decrease (doc k t cat : string) (c : Classifier) :
  (0 <= at2 (MapTokenToCategory c) t cat)%Z →
  (at2 (MapTokenToCategory c) t cat + Z.of_nat (length (tokenizer c doc))
   < 2 ^ 63)%Z →
  (at2 (MapTokenToCategory c) t cat
   <= at2 (MapTokenToCategory (Train doc k c).1) t cat)%Z ∧
  (countTokenInCategory c t cat
   <= countTokenInCategory (Train doc k c).1 t cat)%Q.
Proof.
  intros H0 Hlt.
  assert (at2 (MapTokenToCategory c) t cat
          <= at2 (MapTokenToCategory (Train doc k c).1) t cat)%Z as Hle.
  { rewrite at2_Train. case_decide; [|lia].
    pose proof (occurrences_le_length t (tokenizer c doc)).
    rewrite iter_incr_exact; lia. }
  split; [done|]. rewrite !countTokenInCategory_at2.
  unfold float64. by rewrite <- Zle_Qle.
Qed.

(** The theorem on a second call that repeats a recorded word. *)
Lemma X9_counts_never_decrease_witness :
  (0 <= at2 (MapTokenToCategory trainedOne) "кот" "animals")%Z ∧
  (at2 (MapTokenToCategory trainedOne) "кот" "animals"
   + Z.of_nat (length (tokenizer trainedOne "кот спит")) < 2 ^ 63)%Z ∧
  (at2 (MapTokenToCategory trainedOne) "кот" "animals"
   <= at2 (MapTokenToCategory (Train "кот спит" "animals" trainedOne).1)
          "кот" "animals")%Z ∧
  (countTokenInCategory trainedOne "кот" "animals"
   <= countTokenInCategory (Train "кот спит" "animals" trainedOne).1
        "кот" "animals")%Q.
Proof.
  assert (0 <= at2 (MapTokenToCategory trainedOne) "кот" "animals")%Z as H1
    by (by vm_compute).
  assert (at2 (MapTokenToCategory trainedOne) "кот" "animals"
          + Z.of_nat (length (tokenizer trainedOne "кот спит")) < 2 ^ 63)%Z
    as H2 by (by vm_compute).
  split; [exact H1|]. split; [exact H2|].
  exact (X9_counts_never_decrease "кот спит" "animals" "кот" "animals"
           trainedOne H1 H2).
Defined.

(** *** The order of the training calls *)

Lemma incrAt_comm (m : gmap string Z) (k1 k2 : string) :
  incrAt (incrAt m k1) k2 = incrAt (incrAt m k2) k1.
Proof.
  destruct (decide (k1 = k2)) as [->|Hk]; [done|].
  unfold incrAt at 1 3. rewrite !at1_incrAt.
  rewrite !decide_False by done. unfold incrAt.
  by apply insert_insert_ne.
Qed.

Lemma recordToken_comm (m : gmap string (gmap string Z))
    (k1 k2 t1 t2 : string) :
  recordToken k2 (recordToken k1 m t1) t2
  = recordToken k1 (recordToken k2 m t2) t1.
Proof.
  unfold recordToken. destruct (decide (t1 = t2)) as [->|Ht].
  - rewrite !lookup_insert_eq, !insert_insert_eq. simpl.
    by rewrite incrAt_comm.
  - rewrite !lookup_insert_ne by done. by apply insert_insert_ne.
Qed.

Lemma recordTokens_comm_one (l : list string)
    (m : gmap string (gmap string Z)) (k1 k2 t : string) :
  fold_left (recordToken k1) l (recordToken k2 m t)
  = recordToken k2 (fold_left (recordToken k1) l m) t.
Proof.
  revert m. induction l as [|a l IH]; intros m; [done|].
  simpl. by rewrite recordToken_comm, IH.
Qed.

Lemma recordTokens_comm (l1 l2 : list string)
    (m : gmap string (gmap string Z)) (k1 k2 : string) :
  fold_left (recordToken k2) l2 (fold_left (recordToken k1) l1 m)
  = fold_left (recordToken k1) l1 (fold_left (recordToken k2) l2 m).
Proof.
  revert m. induction l2 as [|a l2 IH]; intros m; [done|].
  simpl.
  by rewrite <- (IH (recordToken k2 m a)), (recordTokens_comm_one l1 m k1 k2 a).
Qed.

Lemma Train_comm (d1 k1 d2 k2 : string) (c : Classifier) :
  (Train d2 k2 (Train d1 k1 c).1).1 = (Train d1 k1 (Train d2 k2 c).1).1.
Proof.
  rewrite !Train_normal_form. cbn [MapTokenToCategory CategoriesCount tokenizer].
  f_equal; [apply recordTokens_comm | apply incrAt_comm].
Qed.

(** X10.  The model does not depend on the order of the training calls:
    two sequences of [Train] calls that are permutations of each other
    lead from the same classifier to the same classifier. *)
Theorem X10_training_order_is_irrelevant (calls calls' : list (string * string))
    (c : Classifier) :
  calls ≡ₚ calls' → trainAll calls c = trainAll calls' c.
Proof.
  intros Hp. revert c.
  induction Hp as [|[d k] l l' _ IH|[d1 k1] [d2 k2] l|l l' l'' _ IH1 _ IH2];
    intros c.
  - done.
  - apply IH.
  - change (trainAll l (Train d1 k1 (Train d2 k2 c).1).1
            = trainAll l (Train d2 k2 (Train d1 k1 c).1).1).
    by rewrite Train_comm.
  - by rewrite IH1.
Qed.

(** The theorem on two calls and their exchange. *)
Lemma X10_training_order_is_irrelevant_witness :
  [("кот сидит на окне", "animals"); ("акция выросла на бирже", "finance")]
  ≡ₚ [("акция выросла на бирже", "finance"); ("кот сидит на окне", "animals")]
  ∧
  trainAll [("кот сидит на окне", "animals");
            ("акция выросла на бирже", "finance")] (New [])
  = trainAll [("акция выросла на бирже", "finance");
              ("кот сидит на окне", "animals")] (New []).
Proof.
  assert ([("кот сидит на окне", "animals");
           ("акция выросла на бирже", "finance")]
          ≡ₚ [("акция выросла на бирже", "finance");
              ("кот сидит на окне", "animals")]) as H
    by apply perm_swap.
  split; [exact H|].
  exact (X10_training_order_is_irrelevant _ _ (New []) H).
Defined.

(** *** The known categories *)

Lemma dom_foldl_incrAt (keys : list string) (m : gmap string Z) :
  dom (fold_left incrAt keys m) = list_to_set keys ∪ dom m.
Proof.
  revert m. induction keys as [|k keys IH]; intros m; simpl.
  - set_solver.
  - rewrite IH. unfold incrAt. rewrite dom_insert_L. set_solver.
Qed.

(** X11.  [getModelCategories] lists every known category once.  After a
    sequence of [Train] calls the known categories are those known before
    together with those the calls name: categories are added and never
    removed. *)
Theorem X11_known_categories (calls : list (string * string))
    (c : Classifier) :
  NoDup (getModelCategories (trainAll calls c)) ∧
  len (CategoriesCount (trainAll calls c))
  = Z.of_nat (length (getModelCategories (trainAll calls c))) ∧
  ∀ cat, cat ∈ getModelCategories (trainAll calls c) ↔
         cat ∈ getModelCategories c ∨ cat ∈ calls.*2.
Proof.
  split; [apply NoDup_fst_map_to_list|]. split.
  - unfold len, getModelCategories, mapKeys.
    by rewrite length_fmap, length_map_to_list.
  - intros cat. unfold getModelCategories.
    rewrite !elem_of_mapKeys, <- !elem_of_dom.
    rewrite CategoriesCount_trainAll, dom_foldl_incrAt. set_solver.
Qed.

(** *** The sum of the training counts *)

Lemma sumInts_fold (vals : list Z) (a : Z) :
  fold_left (λ sum v, wrap64 (sum + v)) vals (wrap64 a)
  = wrap64 (a + sumZ vals).
Proof.
  revert a. induction vals as [|v vals IH]; intros a; simpl.
  - by rewrite Z.add_0_r.
  - rewrite wrap64_add_l, IH. f_equal. lia.
Qed.

Lemma sumInts_wrap (vals : list Z) : sumInts vals = wrap64 (sumZ vals).
Proof.
  unfold sumInts. change 0%Z with (wrap64 0) at 1.
  by rewrite sumInts_fold.
Qed.

Lemma sumZ_Permutation (l l' : list Z) : l ≡ₚ l' → sumZ l = sumZ l'.
Proof.
  induction 1 as [|x l l' _ IH|x y l|l l' l'' _ IH1 _ IH2]; simpl; lia.
Qed.

Lemma sumZ_delete (m : gmap string Z) (k : string) :
  sumZ (map_to_list m).*2
  = (at1 m k + sumZ (map_to_list (delete k m)).*2)%Z.
Proof.
  unfold at1. destruct (m !! k) as [v|] eqn:E.
  - rewrite <- (insert_delete_id m k v E) at 1.
    rewrite (sumZ_Permutation _ _
               (fmap_Permutation snd _ _
                  (map_to_list_insert (delete k m) k v
                     (lookup_delete_eq m k)))).
    by rewrite fmap_cons.
  - by rewrite (delete_id m k E).
Qed.

Lemma sumZ_incrAt (m : gmap string Z) (k : string) :
  sumZ (map_to_list (incrAt m k)).*2
  = (sumZ (map_to_list m).*2 - at1 m k + incr (at1 m k))%Z.
Proof.
  rewrite (sumZ_delete m k). unfold incrAt. rewrite <- insert_delete_eq.
  rewrite (sumZ_Permutation _ _
             (fmap_Permutation snd _ _
                (map_to_list_insert (delete k m) k _ (lookup_delete_eq m k)))).
  rewrite fmap_cons. unfold sumZ. cbn [fold_right snd]. lia.
Qed.

Lemma sumZ_foldl_incrAt (keys : list string) (m : gmap string Z) :
  wrap64 (sumZ (map_to_list (fold_left incrAt keys m)).*2)
  = wrap64 (sumZ (map_to_list m).*2 + Z.of_nat (length keys)).
Proof.
  revert m. induction keys as [|k keys IH]; intros m.
  - simpl. by rewrite Z.add_0_r.
  - simpl fold_left. rewrite IH, sumZ_incrAt. unfold incr.
    replace (sumZ (map_to_list m).*2 - at1 m k + wrap64 (at1 m k + 1)
             + Z.of_nat (length keys))%Z
      with (wrap64 (at1 m k + 1)
            + (sumZ (map_to_list m).*2 - at1 m k
               + Z.of_nat (length keys)))%Z by lia.
    rewrite wrap64_add_l. f_equal. simpl length. lia.
Qed.

(** X12.  Despite its name, [countOverallTokens] counts training events:
    on a model trained from a fresh classifier by fewer than 2^63 calls it
    returns the number of [Train] calls, in whatever order the range over
    the map visits the categories. *)
Theorem X12_countOverallTokens_counts_calls (calls : list (string * string))
    (c : Classifier) (vals : list Z) :
  fresh c → (Z.of_nat (length calls) < 2 ^ 63)%Z →
  vals ≡ₚ (map_to_list (CategoriesCount (trainAll calls c))).*2 →
  sumInts vals = Z.of_nat (length calls) ∧
  countOverallTokens (trainAll calls c) = Z.of_nat (length calls).
Proof.
  intros [_ Hc] Hlen Hperm.
  assert (countOverallTokens (trainAll calls c) = Z.of_nat (length calls))
    as Hsum.
  { unfold countOverallTokens.
    rewrite sumInts_wrap, CategoriesCount_trainAll, sumZ_foldl_incrAt, Hc.
    rewrite map_to_list_empty, length_fmap. simpl.
    apply wrap64_small. lia. }
  split; [|done]. rewrite <- Hsum. unfold countOverallTokens.
  by rewrite !sumInts_wrap, (sumZ_Permutation _ _ Hperm).
Qed.

(** The theorem on the model of two calls. *)
Lemma X12_countOverallTokens_counts_calls_witness :
  let calls := [("кот сидит на окне", "animals");
                ("акция выросла на бирже", "finance")] in
  fresh (New []) ∧
  (Z.of_nat (length calls) < 2 ^ 63)%Z ∧
  [1%Z; 1%Z] ≡ₚ (map_to_list (CategoriesCount (trainAll calls (New [])))).*2 ∧
  sumInts [1%Z; 1%Z] = Z.of_nat (length calls) ∧
  countOverallTokens (trainAll calls (New [])) = Z.of_nat (length calls).
Proof.
  intros calls.
  assert (fresh (New [])) as H1 by (split; reflexivity).
  assert (Z.of_nat (length calls) < 2 ^ 63)%Z as H2 by reflexivity.
  assert ([1%Z; 1%Z]
          ≡ₚ (map_to_list (CategoriesCount (trainAll calls (New [])))).*2)
    as H3 by (vm_compute; reflexivity).
  split; [exact H1|]. split; [exact H2|]. split; [exact H3|].
  exact (X12_countOverallTokens_counts_calls calls (New []) [1%Z; 1%Z] H1 H2 H3).
Defined.

(** ** The estimator, further *)

Lemma sumQ_zero (l : list Q) : Forall (λ q, q = 0%Q) l → (sumQ l == 0)%Q.
Proof. induction 1 as [|q l -> _ IH]; simpl; [reflexivity|]. rewrite IH. ring. Qed.

(** X13.  A token that no training call recorded has the weight 0.001, the
    token probability 0 and, in a model of [n >= 1] categories, the
    weighted probability 0.001 / n, the same for every category. *)
Theorem X13_unseen_token (c : Classifier) (t cat : string) :
  MapTokenToCategory c !! t = None →
  (1 <= len (CategoriesCount c))%Z →
  (calcTokenWeight c t == 1 # 1000)%Q ∧
  (getTokenProb c t cat == 0)%Q ∧
  (getWeightedProb c t cat
   == (1 # 1000) / float64 (len (CategoriesCount c)))%Q.
Proof.
  intros Ht Hn.
  assert (∀ cat', countTokenInCategory c t cat' = 0%Q) as Hcount
    by (intros cat'; unfold countTokenInCategory; by rewrite Ht).
  assert (totalSeen c t == 0)%Q as Hseen.
  { apply sumQ_zero, Forall_fmap, Forall_forall. intros cat' _. apply Hcount. }
  assert (calcTokenWeight c t == 1 # 1000)%Q as Hw.
  { rewrite calcTokenWeight_floor.
    - apply Qeq_bool_iff in Hseen. by rewrite Hseen.
    - rewrite Ht. apply map_Forall_empty. }
  assert (getTokenProb c t cat == 0)%Q as Hp.
  { unfold getTokenProb. rewrite Hcount.
    destruct (Qeq_bool _ 0); [reflexivity|]. unfold Qdiv. ring. }
  split; [done|]. split; [done|].
  pose proof (float64_pos _ Hn) as Hpos.
  unfold getWeightedProb. cbv zeta.
  rewrite (sum_loop_totalSeen c t), Hw, Hp, Hseen. field. lra.
Qed.

(** The theorem on a word that the model of two categories never saw. *)
Lemma X13_unseen_token_witness :
  MapTokenToCategory trainedTwo !! "собака" = None ∧
  (1 <= len (CategoriesCount trainedTwo))%Z ∧
  (calcTokenWeight trainedTwo "собака" == 1 # 1000)%Q ∧
  (getTokenProb trainedTwo "собака" "animals" == 0)%Q ∧
  (getWeightedProb trainedTwo "собака" "animals"
   == (1 # 1000) / float64 (len (CategoriesCount trainedTwo)))%Q.
Proof.
  assert (MapTokenToCategory trainedTwo !! "собака" = None) as H1
    by (by vm_compute).
  assert (1 <= len (CategoriesCount trainedTwo))%Z as H2 by (by vm_compute).
  split; [exact H1|]. split; [exact H2|].
  exact (X13_unseen_token trainedTwo "собака" "animals" H1 H2).
Defined.

(** ** Classify and GetProb, further *)

Lemma single_category_order (c : Classifier) (X : string)
    (order : list string) :
  dom (CategoriesCount c) = {[X]} →
  order ≡ₚ getModelCategories c → order = [X].
Proof.
  intros Hdom Hperm.
  apply dom_singleton_inv_L in Hdom as [v Hv].
  unfold getModelCategories, mapKeys in Hperm.
  rewrite Hv, map_to_list_singleton in Hperm.
  by apply Permutation_singleton_r in Hperm.
Qed.

Lemma ClassifyWith_single (c : Classifier) (data X : string) (p : Q) :
  data ≠ "" → X ≠ "" → getProb c data X = Some p → (0 < p)%Q →
  ClassifyWith [X] c data = Some (X, p, None).
Proof.
  intros Hdata HX Hp Hpos. unfold ClassifyWith.
  destruct (String.eqb_spec data ""); [done|].
  simpl. rewrite Hp. simpl.
  apply Qgtb_spec in Hpos. rewrite Hpos. simpl.
  by destruct (String.eqb_spec X "").
Qed.

(** X16.  A model with exactly one category, of non-empty name, and a
    non-empty document: [Classify] succeeds exactly when the text
    probability of the document is greater than 0.  It then returns the
    category with the text probability as confidence; otherwise it returns
    [ErrNotClassified]. *)
Theorem X16_single_category_wins_when_positive (c : Classifier)
    (data X : string) (order : list string) :
  dom (CategoriesCount c) = {[X]} → X ≠ "" → data ≠ "" →
  order ≡ₚ getModelCategories c →
  ((0 < getTextProb c data X)%Q →
   ∃ p, ClassifyWith order c data = Some (X, p, None) ∧
        (p == getTextProb c data X)%Q) ∧
  (¬ (0 < getTextProb c data X)%Q →
   ClassifyWith order c data = Some ("", 0%Q, Some ErrNotClassified)).
Proof.
  intros Hdom HX Hdata Hperm.
  rewrite (single_category_order c X order Hdom Hperm).
  assert (len (CategoriesCount c) = 1%Z) as Hn
    by (unfold len; by rewrite <- size_dom, Hdom, size_singleton).
  pose proof (getProb_single c data X Hn) as Hp.
  split.
  - intros Hpos. exists (getTextProb c data X * 1)%Q. split; [|ring].
    apply ClassifyWith_single; [done|done|done|lra].
  - intros Hneg. unfold ClassifyWith.
    destruct (String.eqb_spec data ""); [done|].
    rewrite classifyLoop_no_gain; [done|].
    intros cat Hin. apply list_elem_of_singleton in Hin as ->.
    eexists. split; [exact Hp|]. apply Qnot_lt_le in Hneg. lra.
Qed.

(** The theorem on the model trained once and a document about something
    else. *)
Lemma X16_single_category_wins_when_positive_witness :
  dom (CategoriesCount trainedOne) = {["animals"]} ∧
  "animals" ≠ "" ∧
  "акция выросла" ≠ "" ∧
  ["animals"] ≡ₚ getModelCategories trainedOne ∧
  (0 < getTextProb trainedOne "акция выросла" "animals")%Q ∧
  ∃ p, ClassifyWith ["animals"] trainedOne "акция выросла"
       = Some ("animals", p, None) ∧
       (p == getTextProb trainedOne "акция выросла" "animals")%Q.
Proof.
  assert (dom (CategoriesCount trainedOne) = {["animals"]}) as H1
    by (by vm_compute).
  assert ("animals" ≠ "") as H2 by discriminate.
  assert ("акция выросла" ≠ "") as H3 by discriminate.
  assert (["animals"] ≡ₚ getModelCategories trainedOne) as H4
    by (vm_compute; reflexivity).
  assert (0 < getTextProb trainedOne "акция выросла" "animals")%Q as H5
    by (by vm_compute).
  split; [exact H1|]. split; [exact H2|]. split; [exact H3|].
  split; [exact H4|]. split; [exact H5|].
  exact (proj1 (X16_single_category_wins_when_positive trainedOne
                  "акция выросла" "animals" ["animals"] H1 H2 H3 H4) H5).
Defined.

Lemma getProbLoop_no_gain (c : Classifier) (str : string)
    (cats : list string) (probs : gmap string Q) (m : Q) (g : string) :
  (0 <= m)%Q →
  (∀ cat, cat ∈ cats → ∃ p, getProb c str cat = Some p ∧ (p <= 0)%Q) →
  getProbLoop c str cats probs m g = Some (probs, g).
Proof.
  intros Hm. induction cats as [|cat cats IH]; intros Hall; simpl; [done|].
  destruct (Hall cat) as (p & -> & Hp); [left|]. simpl.
  assert (Qgtb p 0 = false) as -> by (by apply Qgtb_false).
  assert (Qgtb p m = false) as -> by (apply Qgtb_false; lra).
  apply IH. intros cat' Hin. apply Hall. by right.
Qed.

(** X17.  In a model of two categories or more, [GetProb] reports nothing:
    for every document and every iteration order it returns the empty map
    of scores and the empty best label. *)
Theorem X17_GetProb_reports_nothing (order : list string) (c : Classifier)
    (str : string) :
  (2 <= len (CategoriesCount c))%Z →
  GetProbWith order c str = Some (∅, "").
Proof.
  intros Hn. unfold GetProbWith.
  apply getProbLoop_no_gain; [lra|].
  intros cat _. eexists. split; [by apply getProb_truncated|]. lra.
Qed.

(** The theorem on the model of two categories. *)
Lemma X17_GetProb_reports_nothing_witness :
  (2 <= len (CategoriesCount trainedTwo))%Z ∧
  GetProbWith ["animals"; "finance"] trainedTwo "кот и акция" = Some (∅, "").
Proof.
  assert (2 <= len (CategoriesCount trainedTwo))%Z as H by (by vm_compute).
  split; [exact H|].
  exact (X17_GetProb_reports_nothing ["animals"; "finance"] trainedTwo
           "кот и акция" H).
Defined.

Lemma classifyLoop_sound (c : Classifier) (data : string)
    (cats : list string) (m : Q) (g : string) (m' : Q) (g' : string) :
  classifyLoop c data cats m g = Some (m', g') →
  ((m', g') = (m, g) ∨
   (g' ∈ cats ∧ getProb c data g' = Some m' ∧ (m < m')%Q)) ∧
  (m <= m')%Q ∧
  ∀ cat p, cat ∈ cats → getProb c data cat = Some p → (p <= m')%Q.
Proof.
  revert m g. induction cats as [|cat cats IH]; intros m g Hrun.
  - simpl in Hrun. injection Hrun as <- <-.
    split; [by left|]. split; [lra|].
    intros cat p Hin. by apply elem_of_nil in Hin.
  - simpl in Hrun. destruct (getProb c data cat) as [q|] eqn:Hq; [|done].
    simpl in Hrun. destruct (Qgtb q m) eqn:E.
    + apply Qgtb_spec in E.
      destruct (IH _ _ Hrun) as (Hor & Hle & Hmax).
      split; [|split; [lra|]].
      * right. destruct Hor as [[= -> ->]|(Hin & Hg & Hlt)].
        -- split; [left|done].
        -- split; [by right|]. split; [done|lra].
      * intros cat' p Hin Hp. apply elem_of_cons in Hin as [->|Hin].
        -- assert (p = q) as -> by congruence. done.
        -- by apply (Hmax cat' p).
    + apply Qgtb_false in E.
      destruct (IH _ _ Hrun) as (Hor & Hle & Hmax).
      split; [|split; [done|]].
      * destruct Hor as [?|(Hin & Hg & Hlt)]; [by left|].
        right. split; [by right|done].
      * intros cat' p Hin Hp. apply elem_of_cons in Hin as [->|Hin].
        -- assert (p = q) as -> by congruence. lra.
        -- by apply (Hmax cat' p).
Qed.

(** X18.  When [Classify] succeeds, the label it returns is one of the
    categories visited and is not empty, the confidence is the score of
    that category, it is strictly positive, and no category has a greater
    score. *)
Theorem X18_Classify_returns_a_best_category (order : list string)
    (c : Classifier) (data g : string) (p : Q) :
  ClassifyWith order c data = Some (g, p, None) →
  data ≠ "" ∧ g ≠ "" ∧ g ∈ order ∧
  getProb c data g = Some p ∧ (0 < p)%Q ∧
  ∀ cat q, cat ∈ order → getProb c data cat = Some q → (q <= p)%Q.
Proof.
  unfold ClassifyWith. intros Hrun.
  destruct (String.eqb_spec data "") as [|Hdata]; [done|].
  destruct (classifyLoop c data order 0%Q "") as [[m' g']|] eqn:Hloop;
    [|done].
  simpl in Hrun. destruct (String.eqb_spec g' "") as [|Hg]; [done|].
  injection Hrun as -> ->.
  destruct (classifyLoop_sound _ _ _ _ _ _ _ Hloop) as (Hor & _ & Hmax).
  destruct Hor as [[= _ ->]|(Hin & Hp & Hlt)]; [done|].
  by repeat split.
Qed.

(** The theorem on a successful run of the model trained once. *)
Lemma X18_Classify_returns_a_best_category_witness :
  ClassifyWith ["animals"] trainedOne "кот"
  = Some ("animals", (2 # 2)%Q, None) ∧
  "кот" ≠ "" ∧ "animals" ≠ "" ∧ "animals" ∈ ["animals"] ∧
  getProb trainedOne "кот" "animals" = Some (2 # 2)%Q ∧ (0 < 2 # 2)%Q ∧
  ∀ cat q, cat ∈ ["animals"] → getProb trainedOne "кот" cat = Some q →
           (q <= 2 # 2)%Q.
Proof.
  assert (ClassifyWith ["animals"] trainedOne "кот"
          = Some ("animals", (2 # 2)%Q, None)) as H by (by vm_compute).
  split; [exact H|].
  exact (X18_Classify_returns_a_best_category ["animals"] trainedOne "кот"
           "animals" (2 # 2)%Q H).
Defined.

Lemma getProbLoop_total (c : Classifier) (str : string)
    (cats : list string) (probs : gmap string Q) (m : Q) (g : string) :
  (∀ cat, cat ∈ cats → is_Some (CategoriesCount c !! cat)) →
  is_Some (getProbLoop c str cats probs m g).
Proof.
  revert probs m g.
  induction cats as [|cat cats IH]; intros probs m g Hk; simpl;
    [by eexists|].
  destruct (getProb_known c str cat) as [p ->]; [apply Hk; left|].
  simpl. destruct (Qgtb p m); apply IH; intros; apply Hk; by right.
Qed.

(** X19.  [Classify] and [GetProb] never panic: whenever the categories
    visited are those of the model, the integer division by the number
    of categories has a divisor that is not zero, and a result is
    returned. *)
Theorem X19_Classify_and_GetProb_never_panic (order : list string)
    (c : Classifier) (data : string) :
  order ≡ₚ getModelCategories c →
  is_Some (ClassifyWith order c data) ∧ is_Some (GetProbWith order c data).
Proof.
  intros Hperm. split; [by apply ClassifyWith_no_panic|].
  apply getProbLoop_total. intros cat Hin.
  apply elem_of_mapKeys. by rewrite <- Hperm.
Qed.

(** The theorem on the model of two categories, visited in both orders of
    which one is checked here. *)
Lemma X19_Classify_and_GetProb_never_panic_witness :
  ["finance"; "animals"] ≡ₚ getModelCategories trainedTwo ∧
  is_Some (ClassifyWith ["finance"; "animals"] trainedTwo "кот") ∧
  is_Some (GetProbWith ["finance"; "animals"] trainedTwo "кот").
Proof.
  assert (["finance"; "animals"] ≡ₚ getModelCategories trainedTwo) as H
    by (vm_compute; first [reflexivity | apply perm_swap]).
  split; [exact H|].
  exact (X19_Classify_and_GetProb_never_panic ["finance"; "animals"]
           trainedTwo "кот" H).
Defined.

(** The loop of [GetProb] follows the loop of [Classify] and collects the
    positive scores. *)
Lemma getProbLoop_spec (c : Classifier) (str : string) (cats : list string)
    (probs : gmap string Q) (m : Q) (g : string) (m' : Q) (g' : string) :
  (∀ cat p, probs !! cat = Some p → getProb c str cat = Some p) →
  classifyLoop c str cats m g = Some (m', g') →
  ∃ probs',
    getProbLoop c str cats probs m g = Some (probs', g') ∧
    ∀ cat p, probs' !! cat = Some p ↔
             probs !! cat = Some p ∨
             (cat ∈ cats ∧ getProb c str cat = Some p ∧ (0 < p)%Q).
Proof.
  revert probs m g. induction cats as [|cat cats IH]; intros probs m g Hc Hrun.
  - simpl in Hrun. injection Hrun as <- <-. exists probs. split; [done|].
    intros cat p. split; [by left|]. intros [?|[Hin _]]; [done|].
    by apply elem_of_nil in Hin.
  - simpl in Hrun. simpl.
    destruct (getProb c str cat) as [q|] eqn:Hq; [|done]. simpl in *.
    set (probs1 := if Qgtb q 0 then <[cat:=q]> probs else probs).
    assert (∀ cat' p, probs1 !! cat' = Some p ↔
              probs !! cat' = Some p ∨
              (cat' = cat ∧ getProb c str cat' = Some p ∧ (0 < p)%Q))
      as Hprobs1.
    { intros cat' p. unfold probs1. destruct (Qgtb q 0) eqn:E0.
      - apply Qgtb_spec in E0. rewrite lookup_insert.
        destruct (decide (cat = cat')) as [<-|Hne]; simpl.
        + split.
          * intros [= <-]. by right.
          * intros [Hold|(_ & Hp & _)]; [apply Hc in Hold|]; congruence.
        + split; [by left|]. intros [?|[? _]]; [done|congruence].
      - apply Qgtb_false in E0. split; [by left|].
        intros [?|(-> & Hp & Hpos)]; [done|].
        assert (p = q) as -> by congruence. lra. }
    assert (∀ cat' p, probs1 !! cat' = Some p → getProb c str cat' = Some p)
      as Hc1.
    { intros cat' p Hp. apply Hprobs1 in Hp as [Hp|(_ & Hp & _)]; [|done].
      by apply Hc. }
    assert (∃ probs',
              getProbLoop c str cats probs1
                (if Qgtb q m then q else m) (if Qgtb q m then cat else g)
              = Some (probs', g') ∧
              ∀ cat' p, probs' !! cat' = Some p ↔
                        probs1 !! cat' = Some p ∨
                        (cat' ∈ cats ∧ getProb c str cat' = Some p
                         ∧ (0 < p)%Q)) as (probs' & Hloop & Hlook).
    { destruct (Qgtb q m); by apply IH. }
    exists probs'. split.
    { fold probs1. by destruct (Qgtb q m). }
    intros cat' p. rewrite Hlook, Hprobs1, elem_of_cons. tauto.
Qed.

(** X20.  [GetProb] returns the map that holds exactly the categories of
    strictly positive score, each with its score, and as best label the
    label that the loop of [Classify] selects in the same iteration
    order. *)
Theorem X20_GetProb_collects_positive_scores (order : list string)
    (c : Classifier) (str : string) :
  order ≡ₚ getModelCategories c →
  ∃ probs best m,
    GetProbWith order c str = Some (probs, best) ∧
    classifyLoop c str order 0%Q "" = Some (m, best) ∧
    ∀ cat p, probs !! cat = Some p ↔
             cat ∈ order ∧ getProb c str cat = Some p ∧ (0 < p)%Q.
Proof.
  intros Hperm.
  destruct (classifyLoop_total c str order 0%Q "") as [[m best] Hrun].
  { intros cat Hin. apply elem_of_mapKeys. by rewrite <- Hperm. }
  destruct (getProbLoop_spec c str order ∅ 0%Q "" m best) as (probs & Hg & Hl);
    [by intros ? ? ?|done|].
  exists probs, best, m. split; [done|]. split; [done|].
  intros cat p. rewrite Hl, lookup_empty. split; [|by right].
  by intros [?|?].
Qed.

(** The theorem on the model trained once. *)
Lemma X20_GetProb_collects_positive_scores_witness :
  ["animals"] ≡ₚ getModelCategories trainedOne ∧
  ∃ probs best m,
    GetProbWith ["animals"] trainedOne "кот" = Some (probs, best) ∧
    classifyLoop trainedOne "кот" ["animals"] 0%Q "" = Some (m, best) ∧
    ∀ cat p, probs !! cat = Some p ↔
             cat ∈ ["animals"] ∧ getProb trainedOne "кот" cat = Some p
             ∧ (0 < p)%Q.
Proof.
  assert (["animals"] ≡ₚ getModelCategories trainedOne) as H
    by (vm_compute; reflexivity).
  split; [exact H|].
  exact (X20_GetProb_collects_positive_scores ["animals"] trainedOne "кот" H).
Defined.

(** X21.  A non-empty document without any token (only stop words, or only
    white space) has the text probability 1: a model with exactly one
    category, of non-empty name, classifies it into that category with
    confidence 1. *)
Theorem X21_document_without_tokens (c : Classifier) (data X : string)
    (order : list string) :
  tokenizer c data = [] → data ≠ "" →
  dom (CategoriesCount c) = {[X]} → X ≠ "" →
  order ≡ₚ getModelCategories c →
  getTextProb c data X = 1%Q ∧
  ClassifyWith order c data = Some (X, 1%Q, None).
Proof.
  intros Htok Hdata Hdom HX Hperm.
  assert (getTextProb c data X = 1%Q) as Htp
    by (unfold getTextProb; by rewrite Htok).
  split; [done|].
  rewrite (single_category_order c X order Hdom Hperm).
  assert (len (CategoriesCount c) = 1%Z) as Hn
    by (unfold len; by rewrite <- size_dom, Hdom, size_singleton).
  apply ClassifyWith_single; [done|done| |done].
  by rewrite (getProb_single c data X Hn), Htp.
Qed.

(** The theorem on a document that is a single stop word. *)
Lemma X21_document_without_tokens_witness :
  tokenizer trainedOne "на" = [] ∧ "на" ≠ "" ∧
  dom (CategoriesCount trainedOne) = {["animals"]} ∧ "animals" ≠ "" ∧
  ["animals"] ≡ₚ getModelCategories trainedOne ∧
  getTextProb trainedOne "на" "animals" = 1%Q ∧
  ClassifyWith ["animals"] trainedOne "на" = Some ("animals", 1%Q, None).
Proof.
  assert (tokenizer trainedOne "на" = []) as H1 by (by vm_compute).
  assert ("на" ≠ "") as H2 by discriminate.
  assert (dom (CategoriesCount trainedOne) = {["animals"]}) as H3
    by (by vm_compute).
  assert ("animals" ≠ "") as H4 by discriminate.
  assert (["animals"] ≡ₚ getModelCategories trainedOne) as H5
    by (vm_compute; reflexivity).
  split; [exact H1|]. split; [exact H2|]. split; [exact H3|].
  split; [exact H4|]. split; [exact H5|].
  exact (X21_document_without_tokens trainedOne "на" "animals" ["animals"]
           H1 H2 H3 H4 H5).
Defined.

(** ** How the operations compose *)

Lemma recordTokens_Permutation (l l' : list string) (cat : string)
    (m : gmap string (gmap string Z)) :
  l ≡ₚ l' →
  fold_left (recordToken cat) l m = fold_left (recordToken cat) l' m.
Proof.
  intros Hp. revert m.
  induction Hp as [|x l l' _ IH|x y l|l l' l'' _ IH1 _ IH2]; intros m.
  - done.
  - apply IH.
  - simpl. by rewrite recordToken_comm.
  - by rewrite IH1.
Qed.

(** X23.  Training sees a document as a bag of tokens: two documents whose
    token sequences are permutations of each other lead, under the same
    category, from the same classifier to the same classifier. *)
Theorem X23_Train_ignores_token_order (d1 d2 cat : string) (c : Classifier) :
  tokenizer c d1 ≡ₚ tokenizer c d2 →
  (Train d1 cat c).1 = (Train d2 cat c).1.
Proof.
  intros Hp. rewrite !Train_normal_form.
  by rewrite (recordTokens_Permutation _ _ cat _ Hp).
Qed.

(** The theorem on two documents with the same words in another order. *)
Lemma X23_Train_ignores_token_order_witness :
  tokenizer (New []) "кот акция" ≡ₚ tokenizer (New []) "акция кот" ∧
  (Train "кот акция" "animals" (New [])).1
  = (Train "акция кот" "animals" (New [])).1.
Proof.
  assert (tokenizer (New []) "кот акция" ≡ₚ tokenizer (New []) "акция кот")
    as H by (vm_compute; apply perm_swap).
  split; [exact H|].
  exact (X23_Train_ignores_token_order "кот акция" "акция кот" "animals"
           (New []) H).
Defined.

(** X24.  [WordCounts] and [Train] count alike: on the default classifier,
    freshly built, training with a document records under its category,
    for every token, the count that [WordCounts] gives for the same
    document (zero for a string that [WordCounts] does not list). *)
Theorem X24_WordCounts_agrees_with_Train (data cat t : string) :
  (Z.of_nat (String.length data) < 2 ^ 63)%Z →
  at2 (MapTokenToCategory (Train data cat (New [])).1) t cat
  = at1 (WordCounts data).1 t.
Proof.
  intros Hlen. rewrite at2_Train, decide_True by done.
  assert ((WordCounts data).1 !! t
          = match occurrences t (Tokenize (NewTokenizer []) data) with
            | O => None
            | S k => Some (Z.of_nat (S k))
            end) as Hwc by exact (tokens_counted (NewTokenizer []) data t Hlen).
  unfold at1. rewrite Hwc.
  change (tokenizer (New []) data) with (Tokenize (NewTokenizer []) data).
  pose proof (occurrences_le_length t (Tokenize (NewTokenizer []) data)).
  pose proof (Tokenize_length (NewTokenizer []) data).
  change (at2 (MapTokenToCategory (New [])) t cat) with 0%Z.
  rewrite iter_incr_exact by lia.
  by destruct (occurrences _ _).
Qed.

(** The theorem on a document with a repeated word. *)
Lemma X24_WordCounts_agrees_with_Train_witness :
  (Z.of_nat (String.length "кот и кот") < 2 ^ 63)%Z ∧
  at2 (MapTokenToCategory (Train "кот и кот" "animals" (New [])).1)
      "кот" "animals"
  = at1 (WordCounts "кот и кот").1 "кот".
Proof.
  assert (Z.of_nat (String.length "кот и кот") < 2 ^ 63)%Z as H
    by reflexivity.
  split; [exact H|].
  exact (X24_WordCounts_agrees_with_Train "кот и кот" "animals" "кот" H).
Defined.

(** ** A classifier just built *)

Lemma tokenizer_custom_options (ts : list Tokenizer) (c : Classifier) :
  tokenizer (fold_left (λ c opt, (opt c).1) (TokenizerCustom <$> ts) c)
  = default (tokenizer c) (last ts).
Proof.
  revert c. induction ts as [|t ts IH]; intros c; [done|].
  rewrite fmap_cons. simpl fold_left. rewrite IH. simpl.
  rewrite last_cons. by destruct (last ts).
Qed.

(** X25.  [New] with any [TokenizerCustom] options builds a classifier
    that uses the tokenizer given last (the standard tokenizer when none
    is given) and knows no category; on every non-empty document its
    [Classify] answers [ErrNotClassified] and its [GetProb] returns the
    empty map and the empty label. *)
Theorem X25_classifier_just_built (ts : list Tokenizer) (data : string) :
  data ≠ "" →
  tokenizer (New (TokenizerCustom <$> ts))
  = default (Tokenize (NewTokenizer [])) (last ts) ∧
  getModelCategories (New (TokenizerCustom <$> ts)) = [] ∧
  Classify (New (TokenizerCustom <$> ts)) data
  = Some ("", 0%Q, Some ErrNotClassified) ∧
  GetProbWith (getModelCategories (New (TokenizerCustom <$> ts)))
              (New (TokenizerCustom <$> ts)) data
  = Some (∅, "").
Proof.
  intros Hdata.
  destruct (New_custom_fresh ts) as [_ Hc].
  assert (getModelCategories (New (TokenizerCustom <$> ts)) = []) as Hcats
    by (unfold getModelCategories, mapKeys; by rewrite Hc, map_to_list_empty).
  split; [apply tokenizer_custom_options|]. split; [done|].
  unfold Classify, ClassifyWith. rewrite Hcats.
  by destruct (String.eqb_spec data "").
Qed.

(** The theorem on the default classifier. *)
Lemma X25_classifier_just_built_witness :
  "кот" ≠ "" ∧
  tokenizer (New (TokenizerCustom <$> []))
  = default (Tokenize (NewTokenizer [])) (last []) ∧
  getModelCategories (New (TokenizerCustom <$> [])) = [] ∧
  Classify (New (TokenizerCustom <$> [])) "кот"
  = Some ("", 0%Q, Some ErrNotClassified) ∧
  GetProbWith (getModelCategories (New (TokenizerCustom <$> [])))
              (New (TokenizerCustom <$> [])) "кот"
  = Some (∅, "").
Proof.
  assert ("кот" ≠ "") as H by discriminate.
  split; [exact H|].
  exact (X25_classifier_just_built [] "кот" H).
Defined.
